(** * Feedspace widget validation: detector, movement verdict, analysis retry

    A shallow embedding of the JavaScript sources

      - widgetDetector.js        (taxonomy tables, [identify], [discover],
                                  [isSameType]),
      - verticalScrollHelper.js / horizontalScrollHelper.js
                                 (the analysis step of [interact]),
      - aiEngine.js              ([analyzeScreenshot], [processResults]),
      - playwrightHelper.js      ([init], [validateWithAI],
                                  [_finalizeAnalysis]),
      - the runners              (batch rotation, per-entry attempts,
                                  summary),

    followed by the properties established about them.

    Conventions of the embedding.
      - JavaScript strings are [string]s of 7-bit characters; [toLowerCase]
        and [toUpperCase] act on the letters a-z / A-Z, [\s] is the ASCII
        white space.  Characters above 127 are outside the model.
      - JavaScript numbers are exact rationals plus NaN and the infinities;
        pixel positions are read as rationals.
      - Code that can throw returns an [outcome]; the browser, the file system
        and the remote model are scripted environments whose answers are
        fields of a record. *)

From Stdlib Require Import String Ascii ZArith QArith List Bool Lia Lqa DecimalString.
From Stdlib Require Import DecimalPos DecimalZ.
Import ListNotations.

Open Scope string_scope.

(* ------------------------------------------------------------------ *)
(** ** JavaScript values and string primitives *)

Module JS.

(** A thrown JavaScript error: [name] is the constructor ("Error",
    "TypeError", "ReferenceError"), [status] the optional numeric [status]
    property that HTTP client errors carry. *)
Record Error := mkError {
  name : string;
  message : string;
  status : option Z
}.

Inductive outcome (A : Type) : Type :=
| Ret (a : A)
| Throw (e : Error).

Arguments Ret {A} a.
Arguments Throw {A} e.

Definition bind {A B : Type} (m : outcome A) (k : A -> outcome B) : outcome B :=
  match m with
  | Ret a => k a
  | Throw e => Throw e
  end.

Inductive number : Type :=
| Finite (q : Q)
| NaN
| PosInfinity
| NegInfinity.

Inductive value : Type :=
| VUndefined
| VNull
| VBool (b : bool)
| VNum (n : number)
| VStr (s : string).

Definition of_Z (z : Z) : number := Finite (inject_Z z).

(** [a ?? b] *)
Definition nullish (a b : value) : value :=
  match a with
  | VUndefined | VNull => b
  | _ => a
  end.

(** The integer a number denotes, when it denotes one.  A property access
    [table[n]] with a number [n] uses the key [String(n)]; that key is a
    string of decimal digits only when [n] is an integer. *)
Definition integer_of (n : number) : option Z :=
  match n with
  | Finite q =>
      let r := Qred q in
      if (Qden r =? 1)%positive then Some (Qnum r) else None
  | _ => None
  end.

Definition in_range (lo hi c : ascii) : bool :=
  (Ascii.leb lo c && Ascii.leb c hi)%bool.

Definition lower_char (c : ascii) : ascii :=
  if in_range "A" "Z" c then ascii_of_nat (nat_of_ascii c + 32) else c.

Definition upper_char (c : ascii) : ascii :=
  if in_range "a" "z" c then ascii_of_nat (nat_of_ascii c - 32) else c.

Fixpoint map_chars (f : ascii -> ascii) (s : string) : string :=
  match s with
  | EmptyString => EmptyString
  | String c r => String (f c) (map_chars f r)
  end.

Fixpoint remove_chars (p : ascii -> bool) (s : string) : string :=
  match s with
  | EmptyString => EmptyString
  | String c r => if p c then remove_chars p r else String c (remove_chars p r)
  end.

Definition toLowerCase : string -> string := map_chars lower_char.
Definition toUpperCase : string -> string := map_chars upper_char.

(** [\s], [StrWhiteSpaceChar]: tab, line feed, vertical tab, form feed,
    carriage return, space. *)
Definition is_space (c : ascii) : bool :=
  (in_range "009" "013" c || Ascii.eqb c " ")%bool.

Definition is_digit (c : ascii) : bool := in_range "0" "9" c.

(** [s.includes(k)] *)
Fixpoint includes (s k : string) : bool :=
  (String.prefix k s ||
   match s with
   | EmptyString => false
   | String _ r => includes r k
   end)%bool.

Fixpoint skip_spaces (s : string) : string :=
  match s with
  | String c r => if is_space c then skip_spaces r else s
  | EmptyString => s
  end.

(** The digits at the front of [s], folded into [acc]; [seen] records that at
    least one digit was read. *)
Fixpoint digits (s : string) (acc : Z) (seen : bool) : option Z :=
  match s with
  | String c r =>
      if is_digit c
      then digits r (10 * acc + (Z.of_nat (nat_of_ascii c) - 48)) true
      else if seen then Some acc else None
  | EmptyString => if seen then Some acc else None
  end.

(** [parseInt(s, 10)]: leading white space, an optional sign, then the
    longest run of decimal digits; [None] is NaN. *)
Definition parseInt (s : string) : option Z :=
  match skip_spaces s with
  | String "-" r => option_map Z.opp (digits r 0 false)
  | String "+" r => digits r 0 false
  | t => digits t 0 false
  end.

(** [s.slice(n)] past the literal prefix [p], when [s] starts with [p]. *)
Fixpoint strip_prefix (p s : string) : option string :=
  match p, s with
  | EmptyString, _ => Some s
  | String a p', String b s' => if Ascii.eqb a b then strip_prefix p' s' else None
  | String _ _, EmptyString => None
  end.

End JS.

Import JS.

(* ------------------------------------------------------------------ *)
(** ** widgetDetector.js *)

Module WidgetDetector.

Definition WidgetTypeConstants : list (Z * string) :=
  [ (4, "CAROUSEL_SLIDER");
    (5, "MASONRY");
    (6, "MARQUEE_STRIPE");
    (7, "AVATAR_GROUP");
    (8, "SINGLE_SLIDER");
    (9, "MARQUEE_UPDOWN");
    (10, "MARQUEE_LEFTRIGHT");
    (11, "FLOATING_TOAST") ]%Z.

Definition WidgetTypeNames : list (string * Z) :=
  [ ("CAROUSEL_SLIDER", 4);
    ("MASONRY", 5);
    ("MARQUEE_STRIPE", 6);
    ("AVATAR_GROUP", 7);
    ("SINGLE_SLIDER", 8);
    ("MARQUEE_UPDOWN", 9);
    ("MARQUEE_LEFTRIGHT", 10);
    ("FLOATING_TOAST", 11) ]%Z.

Definition WidgetAliases : list (string * string) :=
  [ ("stripslider", "MARQUEE_STRIPE");
    ("strip_slider", "MARQUEE_STRIPE");
    ("marqueeslider", "MARQUEE_STRIPE");
    ("carouselslider", "CAROUSEL_SLIDER");
    ("carousel", "CAROUSEL_SLIDER");
    ("singleslider", "SINGLE_SLIDER");
    ("marqueeupdown", "MARQUEE_UPDOWN");
    ("marqueeuptown", "MARQUEE_UPDOWN");
    ("marqueeleftright", "MARQUEE_LEFTRIGHT");
    ("floatingtoast", "FLOATING_TOAST");
    ("avatargroup", "AVATAR_GROUP");
    ("masonry", "MASONRY");
    ("marqueestripe", "MARQUEE_STRIPE") ].

Record Signature := mkSignature {
  classes : list string;
  type : string
}.

Definition CSS_SIGNATURES : list Signature :=
  [ mkSignature ["feedspace-vertical-scroll"; "feedspace-updown"; "vertical-marquee"] "MARQUEE_UPDOWN";
    mkSignature ["fe-feedspace-avatar-group-widget-wrap"; "feedspace-avatar-group"] "AVATAR_GROUP";
    mkSignature ["feedspace-carousel-widget"; "testimonial-slider"; "carousel_slider"] "CAROUSEL_SLIDER";
    mkSignature ["feedspace-marque-main-wrap"; "strip-slider"] "MARQUEE_STRIPE";
    mkSignature ["feedspace-floating-widget"; "fe-floating-toast"; "fe-toast-card"; "fe-chat-bubble"] "FLOATING_TOAST";
    mkSignature ["feedspace-element-horizontal-scroll-widget"; "feedspace-left-right-shadow"] "MARQUEE_LEFTRIGHT";
    mkSignature ["feedspace-single-review-widget"; "single-slider"; "feedspace-single-slider"] "SINGLE_SLIDER";
    mkSignature ["fe-masonry"; "feedspace-masonry"; "masonry-widget"] "MASONRY" ].

(** The three tables are object literals, so a property read also sees what
    they inherit from [Object.prototype]. *)
Definition Object_prototype : list string :=
  [ "constructor"; "__defineGetter__"; "__defineSetter__"; "hasOwnProperty";
    "__lookupGetter__"; "__lookupSetter__"; "isPrototypeOf";
    "propertyIsEnumerable"; "toString"; "valueOf"; "__proto__";
    "toLocaleString" ].

Definition inherited (k : string) : bool :=
  existsb (String.eqb k) Object_prototype.

(** What a property read on [WidgetAliases] yields, and hence what
    [identify] and [discover] can return: a string, or the object inherited
    under the name [k]. *)
Inductive result : Type :=
| Str (s : string)
| Inherited (k : string).

Fixpoint own {V : Type} (table : list (string * V)) (k : string) : option V :=
  match table with
  | [] => None
  | (k', v) :: rest => if String.eqb k k' then Some v else own rest k
  end.

Fixpoint by_code (table : list (Z * string)) (z : Z) : option string :=
  match table with
  | [] => None
  | (z', v) :: rest => if (z =? z')%Z then Some v else by_code rest z
  end.

(** [WidgetTypeConstants[n]]; every stored name is a non-empty string, so
    the read is truthy exactly when it is defined. *)
Definition constant_of (n : number) : option string :=
  match integer_of n with
  | Some z => by_code WidgetTypeConstants z
  | None => None
  end.

(** [WidgetAliases[k]]; own entries and inherited objects are all truthy. *)
Definition alias_of (k : string) : option result :=
  match own WidgetAliases k with
  | Some v => Some (Str v)
  | None => if inherited k then Some (Inherited k) else None
  end.

(** [WidgetTypeNames[k] !== undefined] *)
Definition is_type_name (k : string) : bool :=
  match own WidgetTypeNames k with
  | Some _ => true
  | None => inherited k
  end.

(** [.replace(/[_\- ]/g, '')] *)
Definition strip_separators : string -> string :=
  remove_chars (fun c => (Ascii.eqb c "_" || Ascii.eqb c "-" || Ascii.eqb c " ")%bool).

(** [.replace(/[- ]/g, '_')] *)
Definition underscore_separators : string -> string :=
  map_chars (fun c => if (Ascii.eqb c "-" || Ascii.eqb c " ")%bool then "_"%char else c).

Record Config := mkConfig {
  widget_type_id : value;
  type_field : value
}.

(** [parseInt(s, 10)] as a number. *)
Definition parseInt_number (s : string) : number :=
  match parseInt s with
  | Some z => of_Z z
  | None => NaN
  end.

(** String name resolution, shared by [identify] and by the first tier of
    [discover]. *)
Definition resolve_name (raw : string) : option result :=
  let normalized := strip_separators (toLowerCase raw) in
  match alias_of normalized with
  | Some r => Some r
  | None =>
      let upperRaw := underscore_separators (toUpperCase raw) in
      if is_type_name upperRaw then Some (Str upperRaw) else None
  end.

Definition identify (config : option Config) : result :=
  match config with
  | None => Str "Unknown"
  | Some config =>
      let raw := nullish (widget_type_id config) (type_field config) in
      match raw with
      | VNull | VUndefined => Str "Unknown"
      | _ =>
          (* typeof raw === 'number' ? raw : parseInt(raw, 10); a boolean
             is parsed from "true" or "false" *)
          let numericId :=
            match raw with
            | VNum n => n
            | VStr s => parseInt_number s
            | _ => NaN
            end in
          match constant_of numericId with
          | Some name => Str name
          | None =>
              match raw with
              | VStr s =>
                  match resolve_name s with
                  | Some r => r
                  | None => Str "Unknown"
                  end
              | _ => Str "Unknown"
              end
          end
      end
  end.

(** *** Regular expressions

    The fragment of the pattern language that the class test uses, run by a
    backtracking matcher.  [at_start] tells whether the current position is
    index 0 of the subject (no [m] flag: [^] and [$] are the two ends of the
    subject). *)
Inductive regex : Type :=
| Bol
| Eol
| Space
| Char (c : ascii)
| Empty
| Seq (r1 r2 : regex)
| Alt (r1 r2 : regex).

Fixpoint matches (r : regex) (at_start : bool) (s : string)
  (k : bool -> string -> bool) : bool :=
  match r with
  | Bol => if at_start then k at_start s else false
  | Eol => match s with EmptyString => k at_start s | String _ _ => false end
  | Space =>
      match s with
      | String c t => if is_space c then k false t else false
      | EmptyString => false
      end
  | Char c =>
      match s with
      | String c' t => if Ascii.eqb c c' then k false t else false
      | EmptyString => false
      end
  | Empty => k at_start s
  | Seq r1 r2 => matches r1 at_start s (fun b t => matches r2 b t k)
  | Alt r1 r2 => (matches r1 at_start s k || matches r2 at_start s k)%bool
  end.

(** [r.test(s)] without the sticky or global flag: some start position
    admits a match. *)
Fixpoint search (r : regex) (at_start : bool) (s : string) : bool :=
  (matches r at_start s (fun _ _ => true) ||
   match s with
   | EmptyString => false
   | String _ t => search r false t
   end)%bool.

Definition test (r : regex) (s : string) : bool := search r true s.

Fixpoint literal (token : string) : regex :=
  match token with
  | EmptyString => Empty
  | String c t => Seq (Char c) (literal t)
  end.



(** [new RegExp(`(^|\\s)${token}(\\s|$)`)].  The token is spliced into the
    pattern source; for a [plain] token, which is what every entry of
    [CSS_SIGNATURES] is, the spliced text is the literal itself. *)
Definition token_pattern (token : string) : regex :=
  Seq (Alt Bol Space) (Seq (literal token) (Alt Space Eol)).

Definition hasClass (classString token : string) : bool :=
  test (token_pattern token) classString.

(** *** discover *)

(** What [locator.evaluate] hands back from the page. *)
Record Info := mkInfo {
  idAttr : option string;
  allClasses : string;
  htmlSnippet : string;
  isFeedspaceAnchor : bool
}.

(** The race between [locator.evaluate] and the 5 s timer. *)
Inductive Evaluation : Type :=
| Rejected (e : Error)
| Resolved (info : option Info).

(** Priority 1: the identifying attribute, numeric or by name. *)
Definition attribute_type (a : option string) : option result :=
  match a with
  | None => None
  | Some attr =>
      match constant_of (parseInt_number attr) with
      | Some name => Some (Str name)
      | None => resolve_name attr
      end
  end.

(** Priority 2: the first signature, in table order, one of whose classes
    is present. *)
Fixpoint signature_type (signatures : list Signature) (cls : string) : option string :=
  match signatures with
  | [] => None
  | signature :: rest =>
      if existsb (hasClass cls) (classes signature)
      then Some (type signature)
      else signature_type rest cls
  end.

(** Priority 3: keyword guess for an element that looks like a widget. *)
Definition anchor_guess (html : string) : string :=
  if (includes html "vertical-scroll" || includes html "updown")%bool then "MARQUEE_UPDOWN"
  else if (includes html "horizontal-scroll" || includes html "left-right")%bool then "MARQUEE_LEFTRIGHT"
  else if includes html "carousel" then "CAROUSEL_SLIDER"
  else if includes html "strip-slider" then "MARQUEE_STRIPE"
  else "MARQUEE_UPDOWN".

(** Priority 4: keyword guess from the snippet alone. *)
Definition snippet_guess (html : string) : string :=
  if (includes html "feedspace-vertical-scroll" || includes html "updown")%bool then "MARQUEE_UPDOWN"
  else if (includes html "feedspace-marque" || includes html "strip-slider")%bool then "MARQUEE_STRIPE"
  else if includes html "carousel" then "CAROUSEL_SLIDER"
  else if includes html "masonry" then "MASONRY"
  else if (includes html "floating-toast" || includes html "fe-toast")%bool then "FLOATING_TOAST"
  else if (includes html "horizontal-scroll" || includes html "left-right")%bool then "MARQUEE_LEFTRIGHT"
  else if (includes html "single-slider" || includes html "single-review")%bool then "SINGLE_SLIDER"
  else if includes html "avatar-group" then "AVATAR_GROUP"
  else "Unknown".

Definition classify (info : Info) : result :=
  match attribute_type (idAttr info) with
  | Some r => r
  | None =>
      match signature_type CSS_SIGNATURES (allClasses info) with
      | Some t => Str t
      | None =>
          if isFeedspaceAnchor info
          then Str (anchor_guess (htmlSnippet info))
          else Str (snippet_guess (htmlSnippet info))
      end
  end.

(** [locator] is [None] for a missing locator. *)
Definition discover (locator : option Evaluation) : result :=
  match locator with
  | None => Str "Unknown"
  | Some (Rejected _) => Str "Unknown"
  | Some (Resolved None) => Str "Unknown"
  | Some (Resolved (Some info)) => classify info
  end.

(** *** isSameType *)

Definition result_eqb (a b : result) : bool :=
  match a, b with
  | Str x, Str y => String.eqb x y
  | Inherited x, Inherited y => String.eqb x y
  | _, _ => false
  end.

(** The local [resolve]; [None] is [null].  The empty string is the falsy
    argument. *)
Definition resolve (t : string) : option result :=
  if String.eqb t "" then None
  else
    let n := strip_separators (toLowerCase t) in
    match alias_of n with
    | Some r => Some r
    | None => Some (Str (underscore_separators (toUpperCase t)))
    end.

(** [resolve(typeA) === resolve(typeB)] *)
Definition isSameType (typeA typeB : string) : bool :=
  match resolve typeA, resolve typeB with
  | None, None => true
  | Some a, Some b => result_eqb a b
  | _, _ => false
  end.

(** *** getTypeId *)

(** What [getTypeId] returns: a numeric code, [null], or the object a
    property read on [WidgetTypeNames] inherits under the name [k]. *)
Inductive TypeId : Type :=
| Id (z : Z)
| IdInherited (k : string)
| IdNull.

(** [WidgetTypeNames[resolved] ?? null].  An object used as a property key
    is converted to its string form (the source text of a function,
    "[object Object]" for [Object.prototype]), which names no property. *)
Definition type_id_of (resolved : result) : TypeId :=
  match resolved with
  | Str k =>
      match own WidgetTypeNames k with
      | Some z => Id z
      | None => if inherited k then IdInherited k else IdNull
      end
  | Inherited _ => IdNull
  end.

Definition getTypeId (typeName : string) : TypeId :=
  if String.eqb typeName "" then IdNull
  else
    let normalized := strip_separators (toLowerCase typeName) in
    let resolved :=
      match alias_of normalized with
      | Some r => r
      | None => Str (underscore_separators (toUpperCase typeName))
      end in
    type_id_of resolved.

End WidgetDetector.

(* ------------------------------------------------------------------ *)
(** ** verticalScrollHelper.js and horizontalScrollHelper.js

    The two helpers run the same analysis on the sampled positions; they
    differ in the axis they read, in the labels of the two directions, in the
    configuration key that announces alternating motion and in the wording of
    the messages. *)

Module ScrollHelper.

Inductive Axis : Type := Vertical | Horizontal.

(** The configuration fields the helpers read. *)
Record Config := mkConfig {
  marquee_direction : value;
  horizontal_marquee_direction : value;
  allow_cross_scrolling_animation : value
}.

(** One entry of [getPositions]: slot [j] holds the coordinate of child [j]
    of the track (at most five children are sampled), or nothing when the
    child had no bounding box.  Coordinates are exact rationals: the
    rounding of the source's double arithmetic is not modelled. *)
Definition Positions := list (option Q).

Record TrackResult := mkTrackResult {
  index : nat;
  avgShift : Q;
  direction : string
}.

Record Verdict := mkVerdict {
  status : string;
  message : string;
  details : option (list TrackResult)
}.

Definition positive (a : Axis) : string :=
  match a with Vertical => "DOWN" | Horizontal => "RIGHT" end.

Definition negative (a : Axis) : string :=
  match a with Vertical => "UP" | Horizontal => "LEFT" end.

Definition is_string (v : value) (s : string) : bool :=
  match v with
  | VStr t => String.eqb t s
  | _ => false
  end.

Definition crossScrollingEnabled (a : Axis) (config : Config) : bool :=
  (is_string
     match a with
     | Vertical => marquee_direction config
     | Horizontal => horizontal_marquee_direction config
     end "alter"
   || is_string (allow_cross_scrolling_animation config) "1")%bool.

(** The displacements [final[id] - initial[id]] over the ids present in
    both samples. *)
Fixpoint shifts (initial final : Positions) : list Q :=
  match initial, final with
  | Some a :: initial', Some b :: final' => (b - a) :: shifts initial' final'
  | _ :: initial', _ :: final' => shifts initial' final'
  | _, _ => []
  end.

Definition total (l : list Q) : Q := fold_left Qplus l 0.

Definition average_shift (initial final : Positions) : Q :=
  let d := shifts initial final in
  match d with
  | [] => 0
  | _ => total d / inject_Z (Z.of_nat (List.length d))
  end.

Definition Qgt_bool (x y : Q) : bool := negb (Qle_bool x y).

Definition direction_of (a : Axis) (avg : Q) : string :=
  if Qgt_bool avg 1 then positive a
  else if Qgt_bool (-(1)) avg then negative a
  else "STATIONARY".

(** The loop over [i < count]; a track whose entry is missing from either
    sample is skipped. *)
Definition track_results (a : Axis) (count : nat)
  (initialStates finalStates : list Positions) : list TrackResult :=
  flat_map
    (fun i =>
       match nth_error initialStates i, nth_error finalStates i with
       | Some initial, Some final =>
           let avg := average_shift initial final in
           [mkTrackResult i avg (direction_of a avg)]
       | _, _ => []
       end)
    (seq 0 count).

Definition undefined_direction : Error :=
  mkError "TypeError" "Cannot read properties of undefined (reading 'direction')" None.

(** [results[i].direction] *)
Definition direction_at (results : list TrackResult) (i : nat) : outcome string :=
  match nth_error results i with
  | Some r => Ret (direction r)
  | None => Throw undefined_direction
  end.

Definition opposite_message (a : Axis) : string :=
  match a with
  | Vertical => "Opposite column movement verified (Cross-Scroll)"
  | Horizontal => "Opposite row movement verified."
  end.

Definition failed_message (a : Axis) (same : bool) : string :=
  (match a with
   | Vertical => "Failed: Columns moving in "
   | Horizontal => "Failed: Rows moving in "
   end ++ (if same then "SAME" else "INCORRECT") ++ " direction.")%string.

Definition parallel_message (a : Axis) : string :=
  match a with
  | Vertical => "Parallel column movement verified."
  | Horizontal => "Parallel row movement verified."
  end.

Definition no_movement_message (a : Axis) : string :=
  match a with
  | Vertical => "No vertical movement detected."
  | Horizontal => "No horizontal movement detected."
  end.

(** The body of the [try] from "Analysis Logic" on. *)
Definition analyse (a : Axis) (config : Config) (count : nat)
  (initialStates finalStates : list Positions) : outcome Verdict :=
  if (count =? 0)%nat then
    Ret (mkVerdict "UNKNOWN"
           match a with
           | Vertical => "No columns identified for programmatic tracking."
           | Horizontal => "No rows identified for programmatic tracking."
           end None)
  else
    let crossScrolling := crossScrollingEnabled a config in
    let results := track_results a count initialStates finalStates in
    if (2 <=? count)%nat then
      bind (direction_at results 0) (fun dir1 =>
      bind (direction_at results 1) (fun dir2 =>
        let areOpposite :=
          ((String.eqb dir1 (negative a) && String.eqb dir2 (positive a)) ||
           (String.eqb dir1 (positive a) && String.eqb dir2 (negative a)))%bool in
        if crossScrolling then
          Ret (mkVerdict (if areOpposite then "PASS" else "FAIL")
                 (if areOpposite then opposite_message a
                  else failed_message a (String.eqb dir1 dir2))
                 (Some results))
        else
          let areSame :=
            (String.eqb dir1 dir2 && negb (String.eqb dir1 "STATIONARY"))%bool in
          Ret (mkVerdict (if areOpposite then "FAIL" else "PASS")
                 (if areSame then parallel_message a
                  else "Movement direction discrepancy detected.")
                 (Some results))))
    else
      match nth_error results 0 with
      | Some col =>
          if String.eqb (direction col) "STATIONARY"
          then Ret (mkVerdict "FAIL" (no_movement_message a) (Some results))
          else Ret (mkVerdict "PASS" ("Movement detected: " ++ direction col) (Some results))
      | None => Ret (mkVerdict "PASS" "Movement detected: UNKNOWN" (Some results))
      end.

(** [interact], from the sampled positions on: [count] is the number of
    tracks found before sampling, [initialStates] and [finalStates] the first
    and third sample.  An exception of the analysis is caught and reported
    as an ERROR verdict. *)
Definition interact (a : Axis) (config : Config) (count : nat)
  (initialStates finalStates : list Positions) : Verdict :=
  match analyse a config count initialStates finalStates with
  | Ret v => v
  | Throw e => mkVerdict "ERROR" (JS.message e) None
  end.

(** The answers of the page to the awaited calls of [interact] that are
    not guarded by a [.catch], in the order the code makes them.  The calls
    with a [.catch] of their own ([addStyleTag], the three widget
    screenshots) cannot end the run and are left out. *)
Record Page := mkPage {
  mouse_move : outcome unit;                        (* page.mouse.move(0, 0)       *)
  scroll_by : nat -> outcome unit;                  (* page.evaluate, warm-up      *)
  waitForTimeout : nat -> outcome unit;             (* 100 ms, then twice 2000 ms  *)
  matching_tracks : outcome nat;                    (* columns.count(), rows.count() *)
  fallback_track : outcome bool;                    (* the search for one container *)
  getPositions : nat -> outcome (list Positions)    (* phase 1, 2, 3               *)
}.

(** The body of the [try] up to "Analysis Logic": the number of tracks and
    the first and the third sample.  The search for a single container runs
    only when no track matched, and sets the count to 1 when it takes one;
    the positions are read only when the count is positive ([null]
    otherwise, here the empty list: the analysis does not read a sample when
    the count is 0). *)
Definition sample (page : Page) : outcome (nat * list Positions * list Positions) :=
  bind (mouse_move page) (fun _ =>
  bind (scroll_by page 0) (fun _ =>
  bind (waitForTimeout page 0) (fun _ =>
  bind (scroll_by page 1) (fun _ =>
  bind (matching_tracks page) (fun matching =>
  bind (if (matching =? 0)%nat
        then bind (fallback_track page) (fun taken => Ret (if taken then 1 else 0)%nat)
        else Ret matching) (fun count =>
  let positions k := if (0 <? count)%nat then getPositions page k else Ret [] in
  bind (positions 0%nat) (fun initialStates =>
  bind (waitForTimeout page 1) (fun _ =>
  bind (positions 1%nat) (fun midStates =>
  bind (waitForTimeout page 2) (fun _ =>
  bind (positions 2%nat) (fun finalStates =>
    Ret (count, initialStates, finalStates)))))))))))).

(** [interact] as a whole: the [catch] clause turns an exception of any
    step of the [try], sampling or analysis, into an ERROR verdict that
    carries its message. *)
Definition interact_page (a : Axis) (config : Config) (page : Page) : Verdict :=
  match
    bind (sample page) (fun '(count, initialStates, finalStates) =>
      analyse a config count initialStates finalStates)
  with
  | Ret v => v
  | Throw e => mkVerdict "ERROR" (JS.message e) None
  end.

End ScrollHelper.

Module VerticalScrollHelper.
Definition interact := ScrollHelper.interact ScrollHelper.Vertical.
End VerticalScrollHelper.

Module HorizontalScrollHelper.
Definition interact := ScrollHelper.interact ScrollHelper.Horizontal.
End HorizontalScrollHelper.

(* ------------------------------------------------------------------ *)
(** ** aiEngine.js *)

Module AIEngine.

Record FeatureResult := mkFeatureResult {
  feature : string;
  ui_status : string;
  config_status : string;
  scenario : string;
  status : string;
  warning : option string
}.

(** The objects [analyzeScreenshot] returns: the parsed reply of the model,
    the mock result, or the error record.  A field that an object lacks is
    [None]; [result_status] is the [status] field of the error record. *)
Record Analysis := mkAnalysis {
  mock : bool;
  error : option string;
  result_status : option string;
  overall_status : option string;
  message : option string;
  feature_results : option (list FeatureResult)
}.

(** An entry of the feature list: a name, or an object with an optional
    [name]. *)
Inductive Feature : Type :=
| FeatureName (s : string)
| FeatureObject (name : option string).

Record Engine := mkEngine {
  apiKey : option string;
  maxRetries : nat;
  initialDelay : Z
}.

(** The constructor: [process.env.GEMINI_API_KEY] is the argument. *)
Definition new (key : option string) : Engine :=
  mkEngine key 5 5000.

(** What one pass through the [try] block yields up to [JSON.parse]: the
    parsed reply ([None] is JSON [null]), or the exception thrown by the
    prompt builder, by the request or by the parser. *)
Inductive Reply : Type :=
| Parsed (aiData : option Analysis)
| Failed (e : Error).

Record Run := mkRun {
  returned : outcome (option Analysis);
  waited : list Z
}.

Definition processResults (aiData : option Analysis) : option Analysis :=
  match aiData with
  | None => None
  | Some d =>
      match feature_results d with
      | None => Some d
      | Some fs =>
          let hasFailures := existsb (fun f => String.eqb (status f) "FAIL") fs in
          Some (mkAnalysis (mock d) (error d) (result_status d)
                  (Some (if hasFailures then "FAIL" else "PASS"))
                  (message d) (feature_results d))
      end
  end.

Definition normal : string := "✅ Normal".

Definition getMockResult : Analysis :=
  let row f u sc st := mkFeatureResult f u "Visible" sc st None in
  let hidden := "UI hidden but config says visible" in
  mkAnalysis true None None (Some "FAIL")
    (Some "Mock Mode: AI Validation Results (Simulated)")
    (Some
       [ row "Left & Right Buttons" "Visible" normal "PASS";
         row "Slider Indicators" "Absent" hidden "FAIL";
         row "Show Review Date" "Visible" normal "PASS";
         row "Show Review Ratings" "Visible" normal "PASS";
         row "Shorten Long Reviews / Read More" "Visible" normal "PASS";
         row "Show Social Platform Icon" "Absent" hidden "FAIL";
         row "Inline CTA" "Visible" normal "PASS";
         row "Feedspace Branding" "Absent" "Branding hidden visually" "PASS";
         row "Review Card Border & Shadow" "Visible" normal "PASS" ]).

(** *** Identifier resolution

    [const] and [let] bindings live in the block that declares them.  The
    names below are those a reference can reach from inside the [catch]
    clause of [analyzeScreenshot]: the clause itself, the loop body and
    the function, the module, and the globals the file uses (Node has no
    global named [text]).  The [try] block is a sibling block; its bindings
    are listed apart. *)
Definition catch_block : list string :=
  [ "error"; "isRateLimit"; "features"; "fallbackResults" ].

Definition function_scope : list string :=
  [ "buffers"; "attempts"; "imageBuffers"; "config"; "widgetType";
    "staticFeatures"; "arguments" ].

Definition module_scope : list string :=
  [ "GoogleGenerativeAI"; "PromptBuilder"; "AIEngine";
    "exports"; "require"; "module"; "__filename"; "__dirname" ].

Definition globals : list string :=
  [ "console"; "process"; "Promise"; "setTimeout"; "Array"; "JSON"; "Math" ].

Definition try_block : list string :=
  [ "prompt"; "imageParts"; "result"; "response"; "text"; "cleanText";
    "aiResults" ].

Definition catch_scope : list string :=
  catch_block ++ function_scope ++ module_scope ++ globals.

(** Reading an identifier that no enclosing scope declares throws. *)
Definition reference (scope : list string) (x : string) : outcome unit :=
  if existsb (String.eqb x) scope then Ret tt
  else Throw (mkError "ReferenceError" (x ++ " is not defined") None).

Definition isRateLimit (e : Error) : bool :=
  (includes (JS.message e) "429" ||
   match JS.status e with
   | Some c => (c =? 429)%Z
   | None => false
   end)%bool.

(** [staticFeatures || (config && config.features) || []]; an array, even an
    empty one, is truthy. *)
Definition features_of (staticFeatures configFeatures : option (list Feature)) : list Feature :=
  match staticFeatures with
  | Some fs => fs
  | None =>
      match configFeatures with
      | Some fs => fs
      | None => []
      end
  end.

Definition fallback (e : Error) (f : Feature) : FeatureResult :=
  mkFeatureResult
    match f with
    | FeatureName s => s
    | FeatureObject (Some s) => if String.eqb s "" then "Unknown" else s
    | FeatureObject None => "Unknown"
    end
    "N/A" "N/A" "AI Analysis Failed" "UNKNOWN"
    (Some ("AI analysis failed: " ++ JS.message e)).

(** The [catch] clause past the retry test. *)
Definition degrade (e : Error) (staticFeatures configFeatures : option (list Feature))
  : outcome (option Analysis) :=
  let features := features_of staticFeatures configFeatures in
  (* if (text) { ... } *)
  bind (reference catch_scope "text") (fun _ =>
    let fallbackResults := map (fallback e) features in
    Ret (Some (mkAnalysis false (Some (JS.message e)) (Some "ERROR") None None
                 (Some fallbackResults)))).

Section Loop.

Variable engine : Engine.
(** [replies k] is what attempt number [k] (counted from 1) meets. *)
Variable replies : nat -> Reply.
Variables staticFeatures configFeatures : option (list Feature).

(** The [while (attempts <= maxRetries)] loop.  [remaining] is the variant
    [maxRetries + 1 - attempts]: it is zero exactly when the loop condition
    fails, and every iteration increments [attempts]. *)
Fixpoint attempt_loop (remaining attempts : nat) (slept : list Z) : Run :=
  match remaining with
  | O => mkRun (Ret None) slept
  | S remaining' =>
      let attempts := S attempts in
      match replies attempts with
      | Parsed aiData => mkRun (Ret (processResults aiData)) slept
      | Failed e =>
          if (isRateLimit e && (attempts <=? maxRetries engine)%nat)%bool then
            let delay := (initialDelay engine * 2 ^ (Z.of_nat attempts - 1))%Z in
            attempt_loop remaining' attempts (slept ++ [delay])%list
          else
            mkRun (degrade e staticFeatures configFeatures) slept
      end
  end.

Definition analyzeScreenshot : Run :=
  match apiKey engine with
  | None => mkRun (Ret (Some getMockResult)) []
  | Some key =>
      if String.eqb key "" then mkRun (Ret (Some getMockResult)) []
      else attempt_loop (S (maxRetries engine)) 0 []
  end.

End Loop.

End AIEngine.

(* ------------------------------------------------------------------ *)
(** ** playwrightHelper.js *)

Module PlaywrightHelper.

Record TypeMatch := mkTypeMatch {
  expected : string;
  detected : string;
  matched : bool;
  reason : string
}.

(** A screenshot buffer, tagged with the [fullPage] option of the call that
    took it; [png] stands for the bytes. *)
Record Capture := mkCapture {
  fullPage : bool;
  png : nat
}.

Record Config := mkConfig {
  features : option (list AIEngine.Feature);
  scroll : ScrollHelper.Config
}.

(** The fields of [this]. *)
Record Helper := mkHelper {
  aiEngine : AIEngine.Engine;
  config : Config;
  expectedType : string;
  widgetType : string;
  typeMatchResult : option TypeMatch;
  aiResults : option AIEngine.Analysis;
  movementVerification : option ScrollHelper.Verdict
}.

Record Result := mkResult {
  r_expectedType : string;
  r_widgetType : string;
  r_typeMatchResult : option TypeMatch;
  capturedConfig : Config;
  aiAnalysis : option AIEngine.Analysis;
  r_movementVerification : option ScrollHelper.Verdict;
  screenshotPath : option string;
  screenshotPaths : list string
}.

(** How Steps 2 to 8 of [validateWithAI] (candidate scan, fallback,
    interaction helper, captures) end on a page with at least one candidate:
    by the early return of the closed-page guard, by reaching the end of
    the [try] block, or by an exception; [this] and the buffers are as the
    steps left them. *)
Inductive Steps : Type :=
| ClosedDuringSetup (h : Helper)
| Completed (h : Helper) (buffers : list (option Capture))
| Raised (h : Helper) (buffers : list (option Capture)) (e : Error).

(** The answers of the page, of the file system and of the remote model
    during one call, in the order the code asks for them. *)
Record World := mkWorld {
  closed_on_entry : bool;                 (* page.isClosed(), first guard    *)
  match_count : outcome nat;              (* allMatches.count()              *)
  closed_before_capture : bool;           (* page.isClosed(), zero matches   *)
  page_capture : outcome nat;             (* page.screenshot({fullPage})     *)
  candidates : nat -> Helper -> Steps;    (* Steps 2 to 8                    *)
  closed_in_handler : bool;               (* page.isClosed(), catch clause   *)
  handler_capture : outcome nat;          (* page.screenshot, catch clause   *)
  now : Z;                                (* Date.now()                      *)
  cwd : string;                           (* process.cwd()                   *)
  directory_exists : bool;                (* fs.existsSync                   *)
  mkdir : outcome unit;                   (* fs.mkdirSync                    *)
  write : string -> outcome unit;         (* fs.writeFileSync                *)
  replies : nat -> AIEngine.Reply         (* the model, attempt by attempt   *)
}.

(** What a call leaves behind: its result or exception, the final [this],
    and the image lists passed to [analyzeScreenshot]. *)
Record Trace := mkTrace {
  result : outcome Result;
  this : Helper;
  analysed : list (list Capture)
}.

Definition _buildErrorResult (h : Helper) (why : string) : Result :=
  mkResult (expectedType h) "Error"
    (Some (mkTypeMatch (expectedType h) "Error" false why))
    (config h) None None None [].

Definition decimal (z : Z) : string := NilZero.string_of_int (Z.to_int z).

Definition join (dir file : string) : string := dir ++ "/" ++ file.

(** The loop that writes the buffers; [i] is the index of the head of
    [buffers], [n] the length of the whole array. *)
Fixpoint save (w : World) (h : Helper) (dir : string) (n i : nat)
  (buffers : list (option Capture)) : outcome (list string) :=
  match buffers with
  | [] => Ret []
  | None :: rest => save w h dir n (S i) rest
  | Some _ :: rest =>
      let suffix := if (1 <? n)%nat then "_part" ++ decimal (Z.of_nat (i + 1)) else "" in
      let label := if String.eqb (widgetType h) "Unknown" then expectedType h else widgetType h in
      let screenshotPath := join dir (label ++ "_" ++ decimal (now w) ++ suffix ++ ".png") in
      bind (write w screenshotPath) (fun _ =>
      bind (save w h dir n (S i) rest) (fun paths =>
        Ret (screenshotPath :: paths)))
  end.

(** [buffers.filter(Boolean)] *)
Fixpoint present (buffers : list (option Capture)) : list Capture :=
  match buffers with
  | [] => []
  | Some b :: rest => b :: present rest
  | None :: rest => present rest
  end.

Definition with_features (a : AIEngine.Analysis) (fs : list AIEngine.FeatureResult)
  (overall : option string) : AIEngine.Analysis :=
  AIEngine.mkAnalysis (AIEngine.mock a) (AIEngine.error a) (AIEngine.result_status a)
    overall (AIEngine.message a) (Some fs).

(** Appends the movement verdict to the feature results. *)
Definition add_movement (h : Helper) (ai : option AIEngine.Analysis) : option AIEngine.Analysis :=
  match movementVerification h, ai with
  | Some mv, Some a =>
      match AIEngine.feature_results a with
      | Some fs =>
          let isUpdown := includes (toUpperCase (widgetType h)) "UPDOWN" in
          let featureName :=
            if isUpdown then "Cross Scroll Animation" else "Horizontal Scrolling Animation" in
          let status := ScrollHelper.status mv in
          let row :=
            AIEngine.mkFeatureResult featureName
              (if String.eqb status "PASS" then "Visible" else "Absent")
              "Visible" (ScrollHelper.message mv)
              (if (String.eqb status "ERROR" || String.eqb status "UNKNOWN")%bool
               then "FAIL" else status)
              None in
          Some (with_features a (fs ++ [row])%list
                  (if (String.eqb status "FAIL" || String.eqb status "ERROR")%bool
                   then Some "FAIL" else AIEngine.overall_status a))
      | None => ai
      end
  | _, _ => ai
  end.

(** Puts the type comparison in front of the feature results. *)
Definition add_type_match (h : Helper) (ai : option AIEngine.Analysis) : option AIEngine.Analysis :=
  match ai, typeMatchResult h with
  | Some a, Some tm =>
      match AIEngine.feature_results a with
      | Some fs =>
          let row :=
            AIEngine.mkFeatureResult "Widget Type Identification"
              (detected tm) (expected tm) (reason tm)
              (if matched tm then "PASS" else "FAIL") None in
          Some (with_features a (row :: fs)
                  (if matched tm then AIEngine.overall_status a else Some "FAIL"))
      | None => ai
      end
  | _, _ => ai
  end.

Definition set_aiResults (h : Helper) (ai : option AIEngine.Analysis) : Helper :=
  mkHelper (aiEngine h) (config h) (expectedType h) (widgetType h)
    (typeMatchResult h) ai (movementVerification h).

Definition _finalizeAnalysis (w : World) (h : Helper)
  (screenshotBuffers : list (option Capture))
  (staticFeatures : option (list AIEngine.Feature)) : Trace :=
  let screenshotDir := join (cwd w) "screenshots" in
  match (if directory_exists w then Ret tt else mkdir w) with
  | Throw e => mkTrace (Throw e) h []
  | Ret _ =>
      match save w h screenshotDir (List.length screenshotBuffers) 0 screenshotBuffers with
      | Throw e => mkTrace (Throw e) h []
      | Ret savedPaths =>
          let images := present screenshotBuffers in
          let run :=
            AIEngine.analyzeScreenshot (aiEngine h) (replies w)
              staticFeatures (features (config h)) in
          match AIEngine.returned run with
          | Throw e => mkTrace (Throw e) h [images]
          | Ret ai =>
              let ai := add_type_match h (add_movement h ai) in
              let h := set_aiResults h ai in
              mkTrace
                (Ret (mkResult (expectedType h) (widgetType h) (typeMatchResult h)
                        (config h) (aiResults h) (movementVerification h)
                        (hd_error savedPaths) savedPaths))
                h [images]
          end
      end
  end.

Definition not_found (h : Helper) : Helper :=
  mkHelper (aiEngine h) (config h) (expectedType h) "Widget Not Found"
    (Some (mkTypeMatch (expectedType h) "Widget Not Found" false
             "No Feedspace widget selectors found on the page — widget may not be embedded or is loaded in an iframe"))
    (aiResults h) (movementVerification h).

(** The [catch] clause of [validateWithAI] and the call that follows it. *)
Definition recover (w : World) (h : Helper) (screenshotBuffers : list (option Capture))
  (staticFeatures : option (list AIEngine.Feature)) : Trace :=
  let screenshotBuffers :=
    if ((List.length screenshotBuffers =? 0)%nat && negb (closed_in_handler w))%bool then
      match handler_capture w with
      | Ret p => (screenshotBuffers ++ [Some (mkCapture true p)])%list
      | Throw _ => screenshotBuffers
      end
    else screenshotBuffers in
  _finalizeAnalysis w h screenshotBuffers staticFeatures.

Definition validateWithAI (w : World) (h : Helper)
  (staticFeatures : option (list AIEngine.Feature)) : Trace :=
  if closed_on_entry w then
    mkTrace (Ret (_buildErrorResult h "Page closed before validation")) h []
  else
    match match_count w with
    | Throw e => recover w h [] staticFeatures
    | Ret O =>
        let h := not_found h in
        if closed_before_capture w then _finalizeAnalysis w h [] staticFeatures
        else
          match page_capture w with
          | Ret p => _finalizeAnalysis w h [Some (mkCapture true p)] staticFeatures
          | Throw e => recover w h [] staticFeatures
          end
    | Ret count =>
        match candidates w count h with
        | ClosedDuringSetup h =>
            mkTrace (Ret (_buildErrorResult h "Page closed during setup")) h []
        | Completed h screenshotBuffers =>
            _finalizeAnalysis w h screenshotBuffers staticFeatures
        | Raised h screenshotBuffers e =>
            recover w h screenshotBuffers staticFeatures
        end
    end.

(** *** init *)

(** What [init] leaves: the two type fields of [this], how the navigation
    ended, the pauses it took and the number of [page.goto] calls. *)
Record Navigation := mkNavigation {
  expected_type : WidgetDetector.result;
  widget_type : string;
  navigated : outcome unit;
  pauses : list Z;
  visits : nat
}.

Definition maxAttempts : nat := 3.

Section Navigate.

(** [goto k] is how the [k]-th [page.goto] ends; [script_seen k] tells
    whether the embed script answered in time on that attempt (the waits
    after [goto] swallow their own time-outs). *)
Variable goto : nat -> outcome unit.
Variable script_seen : nat -> bool.

(** The [while (attempts < maxAttempts)] loop; [remaining] is the variant
    [maxAttempts - attempts]. *)
Fixpoint navigate (remaining attempts : nat) (slept : list Z) : outcome unit * list Z * nat :=
  match remaining with
  | O => (Ret tt, slept, attempts)
  | S remaining' =>
      let attempts := S attempts in
      match goto attempts with
      | Ret _ =>
          (* _waitForFeedspaceScript: 2 s for the widget to render *)
          (Ret tt, (slept ++ if script_seen attempts then [2000%Z] else [])%list, attempts)
      | Throw e =>
          if (maxAttempts <=? attempts)%nat then (Throw e, slept, attempts)
          else navigate remaining' attempts (slept ++ [5000%Z])%list
      end
  end.

Definition init (widgetTypeId : value) : Navigation :=
  let expected :=
    WidgetDetector.identify (Some (WidgetDetector.mkConfig VUndefined widgetTypeId)) in
  let '(outcome, slept, attempts) := navigate maxAttempts 0 [] in
  mkNavigation expected "Unknown" outcome slept attempts.

End Navigate.

End PlaywrightHelper.

(* ------------------------------------------------------------------ *)
(** ** The daily runner and runApiValidation.ondemand.js

    The rotation of the daily runner and the per-entry loop that it shares
    with the on-demand runner.  Opening and closing the browser context are
    taken to succeed; urls are strings or absent. *)

Module Runner.

(** An entry of the test data: the fields the runners read. *)
Record Entry := mkEntry {
  customer_url : option string;
  url : option string;
  widget_type : value;
  type_ : value
}.

Definition truthy (v : value) : bool :=
  match v with
  | VUndefined | VNull => false
  | VBool b => b
  | VNum (Finite q) => negb (Qeq_bool q 0)
  | VNum NaN => false
  | VNum _ => true
  | VStr s => negb (String.eqb s "")
  end.

(** [a || b] on optional strings; the empty string is falsy. *)
Definition or_else (a b : option string) : option string :=
  match a with
  | Some s => if String.eqb s "" then b else a
  | None => b
  end.

(** [entry.customer_url || entry.url] *)
Definition url_of (entry : Entry) : option string :=
  or_else (customer_url entry) (url entry).

(** [processed.includes(url)] on the array of strings read from the
    rotation file; an absent url is in no such array. *)
Definition includes_url (processed : list string) (u : option string) : bool :=
  match u with
  | Some s => existsb (String.eqb s) processed
  | None => false
  end.

(** [array.slice(0, end)]; [None] is NaN, a negative end counts from the
    back. *)
Definition slice_to {A : Type} (l : list A) (e : option Z) : list A :=
  match e with
  | None => []
  | Some e =>
      if (e <? 0)%Z then firstn (Z.to_nat (Z.of_nat (List.length l) + e)) l
      else firstn (Z.to_nat e) l
  end.

(** The rotation of the daily runner: the batch, and whether the rotation
    file was reset. *)
Definition select_batch (MAX_DAILY_BATCH : option Z) (allApiData : list Entry)
  (processed : list string) : list Entry * bool :=
  let pending := filter (fun entry => negb (includes_url processed (url_of entry))) allApiData in
  match pending with
  | [] => (slice_to allApiData MAX_DAILY_BATCH, true)
  | _ => (slice_to pending MAX_DAILY_BATCH, false)
  end.

(** A run of the report.  A successful record spreads the validation
    result over [url] and [widgetType], so its [widgetType] is the one of
    the result; the record of a failed entry carries the type id. *)
Record RunRecord := mkRunRecord {
  run_url : option string;
  run_widgetType : value;
  validation : option PlaywrightHelper.Result;
  run_status : string;
  run_error : option string;
  failure_message : option string
}.

Definition null_overall_status : Error :=
  mkError "TypeError" "Cannot read properties of null (reading 'overall_status')" None.

(** [validationResult.aiAnalysis.overall_status || 'UNKNOWN'] *)
Definition record_status (r : PlaywrightHelper.Result) : outcome string :=
  match PlaywrightHelper.aiAnalysis r with
  | None => Throw null_overall_status
  | Some a =>
      match AIEngine.overall_status a with
      | Some s => Ret (if String.eqb s "" then "UNKNOWN" else s)
      | None => Ret "UNKNOWN"
      end
  end.

Section Entry.

Variable entry : Entry.
(** [validated k]: how attempt [k] ends up to the value of
    [validateWithAI] (reading the feature file, [init] and the validation
    can throw); [saved k]: how [saveProcessedUrl] ends on attempt [k]. *)
Variable validated : nat -> outcome PlaywrightHelper.Result.
Variable saved : nat -> outcome unit.

(** [entry.widget_type || entry.type] *)
Definition typeId : value :=
  if truthy (widget_type entry) then widget_type entry else type_ entry.

Definition success_record (r : PlaywrightHelper.Result) (status : string) : RunRecord :=
  mkRunRecord (url_of entry) (VStr (PlaywrightHelper.r_widgetType r)) (Some r) status None None.

Definition error_record (lastError : string) : RunRecord :=
  mkRunRecord (url_of entry) typeId None "ERROR" (Some lastError)
    (Some ("Failed after 3 attempts: " ++ lastError)).

(** The body of the [try] of one attempt: the records pushed, and how the
    block ended. *)
Definition attempt_body (k : nat) : list RunRecord * outcome unit :=
  match validated k with
  | Throw e => ([], Throw e)
  | Ret r =>
      match record_status r with
      | Throw e => ([], Throw e)
      | Ret status => ([success_record r status], saved k)
      end
  end.

(** The [while (attempt < maxAttempts && !success)] loop; [remaining] is
    the variant [maxAttempts - attempt]. *)
Fixpoint attempts_loop (remaining attempt : nat) (results : list RunRecord) : list RunRecord :=
  match remaining with
  | O => results
  | S remaining' =>
      let attempt := S attempt in
      let '(pushed, ended) := attempt_body attempt in
      let results := (results ++ pushed)%list in
      match ended with
      | Ret _ => results
      | Throw e =>
          let results :=
            if (3 <=? attempt)%nat then (results ++ [error_record (JS.message e)])%list
            else results in
          attempts_loop remaining' attempt results
      end
  end.

(** The records one entry adds to [results]. *)
Definition process_entry : list RunRecord := attempts_loop 3 0 [].

End Entry.

Record Summary := mkSummary {
  total : nat;
  passed : nat;
  failed : nat;
  errors : nat
}.

Definition with_status (s : string) (results : list RunRecord) : list RunRecord :=
  filter (fun r => String.eqb (run_status r) s) results.

Definition summary (results : list RunRecord) : Summary :=
  mkSummary (List.length results)
    (List.length (with_status "PASS" results))
    (List.length (with_status "FAIL" results))
    (List.length (with_status "ERROR" results)).

End Runner.

(* ------------------------------------------------------------------ *)
(** * Properties *)

Import WidgetDetector.

(** ** The classifier on configuration records *)

Lemma Qred_inject_Z (z : Z) : Qred (inject_Z z) = inject_Z z.
Proof.
  unfold inject_Z, Qred.
  pose proof (Z.ggcd_gcd z 1) as Hg.
  pose proof (Z.ggcd_correct_divisors z 1) as Hd.
  destruct (Z.ggcd z 1) as [g [aa bb]]; simpl in *.
  rewrite Z.gcd_1_r in Hg; subst g.
  destruct Hd as [Ha Hb]; rewrite Z.mul_1_l in Ha, Hb; subst; reflexivity.
Qed.

Lemma integer_of_Z (z : Z) : integer_of (of_Z z) = Some z.
Proof. unfold integer_of, of_Z; rewrite Qred_inject_Z; reflexivity. Qed.

Lemma constant_of_Z (z : Z) : constant_of (of_Z z) = by_code WidgetTypeConstants z.
Proof. unfold constant_of; rewrite integer_of_Z; reflexivity. Qed.

Lemma by_code_unmapped (z : Z) :
  (z < 4 \/ 11 < z)%Z -> by_code WidgetTypeConstants z = None.
Proof.
  intros H; unfold WidgetTypeConstants; simpl.
  repeat match goal with
         | |- context [(z =? ?c)%Z] => destruct (Z.eqb_spec z c); [lia |]
         end.
  reflexivity.
Qed.

(** The record [{type: code}] with a numeric code. *)
Definition of_code (code : Z) : option WidgetDetector.Config :=
  Some (WidgetDetector.mkConfig VUndefined (VNum (of_Z code))).

Lemma identify_of_code (code : Z) :
  identify (of_code code) =
  match by_code WidgetTypeConstants code with
  | Some name => Str name
  | None => Str "Unknown"
  end.
Proof.
  change (identify (of_code code))
    with (match constant_of (of_Z code) with
          | Some name => Str name
          | None => Str "Unknown"
          end).
  rewrite constant_of_Z; reflexivity.
Qed.

(** C1.  The codes of the taxonomy are exactly 4 to 11; on each of them
    [identify({type: code})] is the canonical name the table binds to the
    code, and on every other integer it is 'Unknown'. *)
Theorem identify_numeric_code :
  (forall code : Z, (4 <= code <= 11)%Z <->
      exists name, In (code, name) WidgetTypeConstants) /\
  (forall code name, In (code, name) WidgetTypeConstants ->
      identify (of_code code) = Str name) /\
  (forall code : Z, (code < 4 \/ 11 < code)%Z ->
      identify (of_code code) = Str "Unknown").
Proof.
  split; [| split].
  - intros code; split.
    + intros H.
      assert (code = 4 \/ code = 5 \/ code = 6 \/ code = 7 \/ code = 8 \/
              code = 9 \/ code = 10 \/ code = 11)%Z as Hc by lia.
      unfold WidgetTypeConstants.
      repeat (destruct Hc as [-> | Hc]; [eexists; simpl; eauto 10 |]).
      subst; eexists; simpl; eauto 10.
    + intros [name H]; unfold WidgetTypeConstants in H; simpl in H.
      repeat (destruct H as [H | H]; [inversion H; lia |]).
      contradiction.
  - intros code name H; rewrite identify_of_code.
    unfold WidgetTypeConstants in H; simpl in H.
    repeat (destruct H as [H | H]; [inversion H; subst; reflexivity |]).
    contradiction.
  - intros code H; rewrite identify_of_code, by_code_unmapped by exact H.
    reflexivity.
Qed.

Lemma identify_numeric_code_witness :
  identify (of_code 6) = Str "MARQUEE_STRIPE" /\
  identify (of_code 12) = Str "Unknown".
Proof.
  split.
  - apply (proj1 (proj2 identify_numeric_code) 6%Z "MARQUEE_STRIPE").
    simpl; tauto.
  - apply (proj2 (proj2 identify_numeric_code) 12%Z); lia.
Defined.



(** ** Equivalence of type names *)

Definition canonical_names : list string := map fst WidgetTypeNames.

Definition aliases : list string := map fst WidgetAliases.

(** The strings the equivalence is stated on: canonical names and aliases. *)
Definition vocabulary : list string := canonical_names ++ aliases.

(** The normalization as the specification words it: lowercase with the
    separators stripped, resolved through the alias table; else uppercase
    with the separators turned to underscores. *)
Definition spec_normalize (t : string) : string :=
  match own WidgetAliases (strip_separators (toLowerCase t)) with
  | Some canonical => canonical
  | None => underscore_separators (toUpperCase t)
  end.

Lemma result_eqb_refl (r : result) : result_eqb r r = true.
Proof. destruct r; simpl; apply String.eqb_refl. Qed.

Lemma result_eqb_sym (a b : result) : result_eqb a b = result_eqb b a.
Proof. destruct a, b; simpl; try reflexivity; apply String.eqb_sym. Qed.

Lemma isSameType_refl (a : string) : isSameType a a = true.
Proof.
  unfold isSameType; destruct (resolve a); [apply result_eqb_refl | reflexivity].
Qed.

Lemma isSameType_sym (a b : string) : isSameType a b = isSameType b a.
Proof.
  unfold isSameType; destruct (resolve a), (resolve b); try reflexivity.
  apply result_eqb_sym.
Qed.

(** On the vocabulary the code's [resolve] and the specification's
    normalization agree, and they land in the taxonomy. *)
Lemma resolve_vocabulary (a : string) :
  In a vocabulary ->
  resolve a = Some (Str (spec_normalize a)) /\ In (spec_normalize a) canonical_names.
Proof.
  intros H; unfold vocabulary, canonical_names, aliases in H; simpl in H.
  repeat (destruct H as [<- | H];
          [split; [vm_compute; reflexivity | vm_compute; tauto] |]).
  contradiction.
Qed.

(** C3.  [isSameType] is reflexive and symmetric, and on canonical names and
    aliases it holds exactly when both sides normalize to one canonical
    name; the backend name MARQUEE_STRIPE and the frontend alias
    stripslider are the same type. *)
Theorem isSameType_equivalence :
  (forall a, isSameType a a = true) /\
  (forall a b, isSameType a b = isSameType b a) /\
  (forall a b, In a vocabulary -> In b vocabulary ->
      (isSameType a b = true <->
       exists c, In c canonical_names /\ spec_normalize a = c /\ spec_normalize b = c)) /\
  isSameType "MARQUEE_STRIPE" "stripslider" = true.
Proof.
  split; [exact isSameType_refl |].
  split; [exact isSameType_sym |].
  split; [| reflexivity].
  intros a b Ha Hb.
  destruct (resolve_vocabulary a Ha) as [Ra Ca].
  destruct (resolve_vocabulary b Hb) as [Rb Cb].
  unfold isSameType; rewrite Ra, Rb; simpl.
  rewrite String.eqb_eq; split.
  - intros E; exists (spec_normalize a); auto.
  - intros [c [_ [E1 E2]]]; congruence.
Qed.

Lemma isSameType_equivalence_witness :
  isSameType "strip_slider" "MARQUEE_STRIPE" = true.
Proof.
  apply (proj1 (proj2 (proj2 isSameType_equivalence)) "strip_slider" "MARQUEE_STRIPE").
  - unfold vocabulary; simpl; tauto.
  - unfold vocabulary; simpl; tauto.
  - exists "MARQUEE_STRIPE"; split; [simpl; tauto | split; reflexivity].
Defined.

(** ** Class tokens *)

(** [s] is empty or begins with white space. *)
Definition space_or_end (s : string) : Prop :=
  s = "" \/ exists c r, s = String c r /\ is_space c = true.

(** [s] is empty or ends with white space. *)
Definition start_or_space (s : string) : Prop :=
  s = "" \/ exists p c, s = p ++ String c "" /\ is_space c = true.

(** [token] occurs in [cls] as a whole word: bounded on the left by the
    start of [cls] or white space, on the right by white space or the end. *)
Definition whole_token (token cls : string) : Prop :=
  exists before after,
    cls = before ++ token ++ after /\ start_or_space before /\ space_or_end after.

Definition boundary (s : string) : bool :=
  match s with
  | EmptyString => true
  | String c _ => is_space c
  end.

(** [token] is read at the front of [s] and stops at a boundary. *)
Definition token_here (token s : string) : bool :=
  match strip_prefix token s with
  | Some rest => boundary rest
  | None => false
  end.

Lemma append_snoc (p : string) (c : ascii) (x : string) :
  (p ++ String c "") ++ x = p ++ String c x.
Proof. induction p as [| a p IH]; simpl; [reflexivity | now rewrite IH]. Qed.

Lemma strip_prefix_spec (p s r : string) :
  strip_prefix p s = Some r <-> s = p ++ r.
Proof.
  revert s; induction p as [| a p IH]; intros s; simpl.
  - split; [intros [= ->]; reflexivity | intros ->; reflexivity].
  - destruct s as [| b s]; [split; discriminate |].
    destruct (Ascii.eqb_spec a b) as [-> | Hne].
    + rewrite IH; split; [intros ->; reflexivity | intros [= ->]; reflexivity].
    + split; [discriminate | intros [= E _]; congruence].
Qed.

Lemma boundary_spec (s : string) : boundary s = true <-> space_or_end s.
Proof.
  unfold space_or_end; destruct s as [| c r]; simpl.
  - split; auto.
  - split.
    + intros H; right; eauto.
    + intros [H | [c' [r' [[= -> ->] H]]]]; [discriminate | exact H].
Qed.

Lemma token_here_spec (token s : string) :
  token_here token s = true <->
  exists after, s = token ++ after /\ space_or_end after.
Proof.
  unfold token_here; split.
  - destruct (strip_prefix token s) as [rest |] eqn:E; [| discriminate].
    intros H; exists rest; split; [now apply strip_prefix_spec | now apply boundary_spec].
  - intros [after [E H]]; apply strip_prefix_spec in E; rewrite E.
    now apply boundary_spec.
Qed.

Lemma matches_literal (token : string) (b : bool) (s : string) (k : bool -> string -> bool) :
  matches (literal token) b s k =
  match strip_prefix token s with
  | Some rest => k (match token with EmptyString => b | String _ _ => false end) rest
  | None => false
  end.
Proof.
  revert b s; induction token as [| c t IH]; intros b s; simpl; [reflexivity |].
  destruct s as [| c' s']; [reflexivity |].
  destruct (Ascii.eqb c c'); [| reflexivity].
  rewrite IH; destruct (strip_prefix t s'); [| reflexivity].
  destruct t; reflexivity.
Qed.

Lemma matches_token_pattern (token : string) (b : bool) (s : string) :
  matches (token_pattern token) b s (fun _ _ => true) =
  ((if b then token_here token s else false) ||
   match s with
   | String c t => if is_space c then token_here token t else false
   | EmptyString => false
   end)%bool.
Proof.
  assert (tail : forall b' t',
             matches (Seq (literal token) (Alt Space Eol)) b' t' (fun _ _ => true) =
             token_here token t').
  { intros b' t'; simpl; rewrite matches_literal; unfold token_here.
    destruct (strip_prefix token t') as [rest |]; [| reflexivity].
    destruct rest as [| c r]; simpl; [reflexivity |].
    destruct (is_space c); reflexivity. }
  unfold token_pattern.
  change (matches (Seq (Alt Bol Space) (Seq (literal token) (Alt Space Eol))) b s (fun _ _ => true))
    with ((if b then matches (Seq (literal token) (Alt Space Eol)) b s (fun _ _ => true) else false) ||
          match s with
          | String c t =>
              if is_space c
              then matches (Seq (literal token) (Alt Space Eol)) false t (fun _ _ => true)
              else false
          | EmptyString => false
          end)%bool.
  rewrite tail; destruct s as [| c t]; [reflexivity |].
  rewrite tail; reflexivity.
Qed.

Lemma search_token_pattern (token s : string) (b : bool) :
  search (token_pattern token) b s = true <->
  (b = true /\ token_here token s = true) \/
  (exists p c r, s = p ++ String c r /\ is_space c = true /\ token_here token r = true).
Proof.
  revert b; induction s as [| a s IH]; intros b.
  - cbn [search]; rewrite matches_token_pattern, !orb_false_r; split.
    + destruct b; [auto | discriminate].
    + intros [[-> H] | [p [c [r [E _]]]]]; [exact H |].
      destruct p; discriminate.
  - cbn [search]; rewrite matches_token_pattern, !orb_true_iff, IH; split.
    + intros [[H | H] | [[Hf _] | [p [c [r [E [Hc Ht]]]]]]].
      * destruct b; [auto | discriminate].
      * destruct (is_space a) eqn:Ha; [| discriminate].
        right; exists "", a, s; auto.
      * discriminate.
      * right; exists (String a p), c, r; simpl; rewrite E; auto.
    + intros [[-> H] | [p [c [r [E [Hc Ht]]]]]].
      * left; left; exact H.
      * destruct p as [| a' p]; simpl in E; injection E as -> ->.
        -- left; right; rewrite Hc; exact Ht.
        -- right; right; exists p, c, r; auto.
Qed.

Lemma hasClass_whole_token (cls token : string) :
  hasClass cls token = true <-> whole_token token cls.
Proof.
  unfold hasClass, test; rewrite search_token_pattern; unfold whole_token; split.
  - intros [[_ H] | [p [c [r [E [Hc H]]]]]];
      apply token_here_spec in H; destruct H as [after [Ea Ha]].
    + exists "", after; split; [exact Ea | split; [left; reflexivity | exact Ha]].
    + exists (p ++ String c ""), after; split.
      * rewrite append_snoc, E, Ea; reflexivity.
      * split; [right; eauto | exact Ha].
  - intros [before [after [E [[-> | [p [c [-> Hc]]]] Ha]]]].
    + left; split; [reflexivity | apply token_here_spec; eauto].
    + right; exists p, c, (token ++ after); split.
      * rewrite E, append_snoc; reflexivity.
      * split; [exact Hc | apply token_here_spec; eauto].
Qed.



(** ** The anchor and snippet tiers of [discover] *)

Definition anchor_keywords : list string :=
  [ "vertical-scroll"; "updown"; "horizontal-scroll"; "left-right";
    "carousel"; "strip-slider" ].

Definition snippet_keywords : list string :=
  [ "feedspace-vertical-scroll"; "updown"; "feedspace-marque"; "strip-slider";
    "carousel"; "masonry"; "floating-toast"; "fe-toast"; "horizontal-scroll";
    "left-right"; "single-slider"; "single-review"; "avatar-group" ].

(** Neither the identifying attribute nor a class signature settles the
    type. *)
Definition unresolved (info : Info) : Prop :=
  attribute_type (idAttr info) = None /\
  signature_type CSS_SIGNATURES (allClasses info) = None.

Definition on_page (info : Info) : option Evaluation :=
  Some (Resolved (Some info)).

Lemma anchor_guess_default (html : string) :
  existsb (includes html) anchor_keywords = false ->
  anchor_guess html = "MARQUEE_UPDOWN".
Proof.
  unfold anchor_keywords, anchor_guess; cbn [existsb]; intros H.
  repeat (apply orb_false_elim in H; destruct H as [?E H]); clear H.
  repeat match goal with
         | E : includes html _ = false |- _ => rewrite E; clear E
         end.
  reflexivity.
Qed.

Lemma snippet_guess_default (html : string) :
  existsb (includes html) snippet_keywords = false ->
  snippet_guess html = "Unknown".
Proof.
  unfold snippet_keywords, snippet_guess; cbn [existsb]; intros H.
  repeat (apply orb_false_elim in H; destruct H as [?E H]); clear H.
  repeat match goal with
         | E : includes html _ = false |- _ => rewrite E; clear E
         end.
  reflexivity.
Qed.

(** C2, as the code has it.  With no identifying attribute resolved and no
    class signature matched: an element that passes the anchor test and
    whose snippet holds none of the anchor keywords is MARQUEE_UPDOWN; an
    element that fails the anchor test and whose snippet holds none of the
    snippet keywords is 'Unknown'. *)
Theorem discover_fallback (info : Info) :
  unresolved info ->
  (isFeedspaceAnchor info = true ->
   existsb (includes (htmlSnippet info)) anchor_keywords = false ->
   discover (on_page info) = Str "MARQUEE_UPDOWN") /\
  (isFeedspaceAnchor info = false ->
   existsb (includes (htmlSnippet info)) snippet_keywords = false ->
   discover (on_page info) = Str "Unknown").
Proof.
  intros [Ha Hs]; unfold on_page, discover, classify; rewrite Ha, Hs.
  split; intros -> H.
  - now rewrite anchor_guess_default.
  - now rewrite snippet_guess_default.
Qed.

(** An element without classes or attributes whose markup mentions
    masonry. *)
Definition plain_masonry : Info :=
  mkInfo None "" "<p>our masonry wall</p>" false.

(** An element of class feedspace-embed with an empty body. *)
Definition bare_anchor : Info :=
  mkInfo None "feedspace-embed" "" true.

Lemma discover_fallback_witness :
  discover (on_page bare_anchor) = Str "MARQUEE_UPDOWN" /\
  discover (on_page (mkInfo None "" "<p>hello</p>" false)) = Str "Unknown".
Proof.
  split.
  - apply (proj1 (discover_fallback bare_anchor (conj eq_refl eq_refl)));
      reflexivity.
  - apply (proj2 (discover_fallback (mkInfo None "" "<p>hello</p>" false)
                    (conj eq_refl eq_refl)));
      reflexivity.
Defined.

(** C2 as the specification states it fails: without the anchor, the
    snippet tier still classifies. *)
Lemma discover_without_anchor_not_unknown :
  ~ (forall info, unresolved info -> isFeedspaceAnchor info = false ->
       discover (on_page info) = Str "Unknown").
Proof.
  intros claim.
  specialize (claim plain_masonry (conj eq_refl eq_refl) eq_refl).
  vm_compute in claim; discriminate.
Qed.

(** ** The movement verdict *)

Section Movement.

Import ScrollHelper.

Open Scope Q_scope.

Variable a : Axis.

Lemma direction_of_positive (avg : Q) :
  1 < avg -> direction_of a avg = positive a.
Proof.
  intros H; unfold direction_of, Qgt_bool.
  destruct (Qle_bool avg 1) eqn:E; [| reflexivity].
  apply Qle_bool_iff in E; lra.
Qed.

Lemma direction_of_negative (avg : Q) :
  avg < -(1) -> direction_of a avg = negative a.
Proof.
  intros H; unfold direction_of, Qgt_bool.
  destruct (Qle_bool avg 1) eqn:E1; simpl.
  - destruct (Qle_bool (-(1)) avg) eqn:E2; [| reflexivity].
    apply Qle_bool_iff in E2; lra.
  - assert (~ avg <= 1) by (rewrite <- Qle_bool_iff, E1; discriminate); lra.
Qed.

Lemma direction_of_stationary (avg : Q) :
  -(1) <= avg <= 1 -> direction_of a avg = "STATIONARY"%string.
Proof.
  intros [Hl Hu]; unfold direction_of, Qgt_bool.
  apply Qle_bool_iff in Hl, Hu; rewrite Hl, Hu; reflexivity.
Qed.

Lemma negative_positive : String.eqb (negative a) (positive a) = false.
Proof. destruct a; reflexivity. Qed.

(** With two tracks and both directions read, the status is a function of
    the two directions and of the cross-scroll setting. *)
Definition status_of_pair (cross : bool) (dir1 dir2 : string) : string :=
  let areOpposite :=
    ((String.eqb dir1 (negative a) && String.eqb dir2 (positive a)) ||
     (String.eqb dir1 (positive a) && String.eqb dir2 (negative a)))%bool in
  if cross then (if areOpposite then "PASS" else "FAIL")%string
  else (if areOpposite then "FAIL" else "PASS")%string.

(** With two or more tracks the status is read off the first two
    directions; a missing direction is the ERROR of the caught exception. *)
Lemma interact_status (config : Config) (count : nat)
  (initialStates finalStates : list Positions) :
  (2 <= count)%nat ->
  let results := track_results a count initialStates finalStates in
  status (interact a config count initialStates finalStates) =
  match direction_at results 0, direction_at results 1 with
  | Ret dir1, Ret dir2 => status_of_pair (crossScrollingEnabled a config) dir1 dir2
  | _, _ => "ERROR"%string
  end.
Proof.
  intros Hc results; unfold interact, analyse; fold results.
  destruct count as [| [| n]]; [lia | lia |].
  change (S (S n) =? 0)%nat with false; change (2 <=? S (S n))%nat with true.
  cbv iota.
  destruct (direction_at results 0) as [dir1 | e1]; [| reflexivity].
  destruct (direction_at results 1) as [dir2 | e2]; [| reflexivity].
  unfold status_of_pair; cbn [bind].
  destruct (crossScrollingEnabled a config); reflexivity.
Qed.

Lemma interact_status_of_pair (config : Config) (count : nat)
  (initialStates finalStates : list Positions) (dir1 dir2 : string) :
  (2 <= count)%nat ->
  direction_at (track_results a count initialStates finalStates) 0 = Ret dir1 ->
  direction_at (track_results a count initialStates finalStates) 1 = Ret dir2 ->
  status (interact a config count initialStates finalStates) =
  status_of_pair (crossScrollingEnabled a config) dir1 dir2.
Proof.
  intros Hc H1 H2; rewrite interact_status by exact Hc; cbv zeta.
  rewrite H1, H2; reflexivity.
Qed.

End Movement.

Import ScrollHelper.

(** C5.  On either axis: two tracks whose average shifts are -5 and +5,
    cross-scrolling not configured, give FAIL; two tracks that both shift by
    -5, cross-scrolling not configured, give PASS; a single track whose
    average shift is below 1 in absolute value gives FAIL. *)
Theorem movement_verdict (a : Axis) :
  (forall config i0 f0 i1 f1,
      crossScrollingEnabled a config = false ->
      average_shift i0 f0 == -(5) -> average_shift i1 f1 == 5 ->
      status (interact a config 2 [i0; i1] [f0; f1]) = "FAIL") /\
  (forall config i0 f0 i1 f1,
      crossScrollingEnabled a config = false ->
      average_shift i0 f0 == -(5) -> average_shift i1 f1 == -(5) ->
      status (interact a config 2 [i0; i1] [f0; f1]) = "PASS") /\
  (forall config i f,
      -(1) < average_shift i f /\ average_shift i f < 1 ->
      status (interact a config 1 [i] [f]) = "FAIL").
Proof.
  split; [| split].
  - intros config i0 f0 i1 f1 Hx H0 H1.
    rewrite (interact_status_of_pair a config 2 _ _ (negative a) (positive a));
      [| lia | |].
    + rewrite Hx; unfold status_of_pair; rewrite !String.eqb_refl; reflexivity.
    + cbn; rewrite direction_of_negative by lra; reflexivity.
    + cbn; rewrite direction_of_positive by lra; reflexivity.
  - intros config i0 f0 i1 f1 Hx H0 H1.
    rewrite (interact_status_of_pair a config 2 _ _ (negative a) (negative a));
      [| lia | |].
    + rewrite Hx; unfold status_of_pair.
      rewrite negative_positive, String.eqb_refl; reflexivity.
    + cbn; rewrite direction_of_negative by lra; reflexivity.
    + cbn; rewrite direction_of_negative by lra; reflexivity.
  - intros config i f [Hl Hu]; unfold interact, analyse; cbn.
    rewrite direction_of_stationary by lra; reflexivity.
Qed.

Definition no_cross : ScrollHelper.Config :=
  ScrollHelper.mkConfig VUndefined VUndefined (VStr "0").

Definition at_100_200 : Positions := [Some (100 # 1); Some (200 # 1)].
Definition at_95_195 : Positions := [Some (95 # 1); Some (195 # 1)].
Definition at_105_205 : Positions := [Some (105 # 1); Some (205 # 1)].
Definition at_100h_200 : Positions := [Some (201 # 2); Some (200 # 1)].

Lemma movement_verdict_witness :
  status (VerticalScrollHelper.interact no_cross 2
            [at_100_200; at_100_200] [at_95_195; at_105_205]) = "FAIL" /\
  status (HorizontalScrollHelper.interact no_cross 2
            [at_100_200; at_100_200] [at_95_195; at_95_195]) = "PASS" /\
  status (VerticalScrollHelper.interact no_cross 1
            [at_100_200] [at_100h_200]) = "FAIL".
Proof.
  split; [| split].
  - apply (proj1 (movement_verdict Vertical)); reflexivity.
  - apply (proj1 (proj2 (movement_verdict Horizontal))); reflexivity.
  - apply (proj2 (proj2 (movement_verdict Vertical))); split; reflexivity.
Defined.

(** C10.  With two or more tracks the status depends on the directions of
    the first two tracks and on the cross-scroll setting only: two runs
    that agree on these have the same status, whatever the further tracks
    did.  (A direction that cannot be read counts as agreeing with one that
    cannot be read.) *)
Theorem status_from_first_two_tracks (a : Axis)
  (config config' : ScrollHelper.Config) (count count' : nat)
  (initialStates finalStates initialStates' finalStates' : list Positions) :
  (2 <= count)%nat -> (2 <= count')%nat ->
  crossScrollingEnabled a config = crossScrollingEnabled a config' ->
  direction_at (track_results a count initialStates finalStates) 0 =
    direction_at (track_results a count' initialStates' finalStates') 0 ->
  direction_at (track_results a count initialStates finalStates) 1 =
    direction_at (track_results a count' initialStates' finalStates') 1 ->
  status (interact a config count initialStates finalStates) =
  status (interact a config' count' initialStates' finalStates').
Proof.
  intros Hc Hc' Hx H1 H2.
  rewrite !interact_status by assumption; cbv zeta.
  rewrite Hx, H1, H2; reflexivity.
Qed.

Lemma status_from_first_two_tracks_witness :
  status (VerticalScrollHelper.interact no_cross 2
            [at_100_200; at_100_200] [at_95_195; at_105_205]) =
  status (VerticalScrollHelper.interact no_cross 3
            [at_100_200; at_100_200; at_100_200]
            [at_95_195; at_105_205; at_100h_200]).
Proof.
  apply (status_from_first_two_tracks Vertical no_cross no_cross 2 3);
    try reflexivity; lia.
Defined.

(** ** Retry of the analysis call *)

Open Scope nat_scope.

Section Retry.

Import AIEngine.

Variable engine : Engine.
Variable replies : nat -> Reply.
Variables staticFeatures configFeatures : option (list Feature).

(** Attempt [k] failed with a rate-limit signal. *)
Definition rate_limited (k : nat) : Prop :=
  exists e, replies k = Failed e /\ isRateLimit e = true.

(** The pause before retry [k]: the base, doubled [k - 1] times. *)
Definition retry_delay (k : nat) : Z :=
  (initialDelay engine * 2 ^ (Z.of_nat k - 1))%Z.

Local Abbreviation loop := (attempt_loop engine replies staticFeatures configFeatures).

Lemma attempt_loop_parsed (remaining attempts : nat) (slept : list Z) aiData :
  replies (S attempts) = Parsed aiData ->
  loop (S remaining) attempts slept = mkRun (Ret (processResults aiData)) slept.
Proof. intros H; cbn [attempt_loop]; rewrite H; reflexivity. Qed.

Lemma attempt_loop_retry (remaining attempts : nat) (slept : list Z) e :
  replies (S attempts) = Failed e -> isRateLimit e = true ->
  S attempts <= maxRetries engine ->
  loop (S remaining) attempts slept =
  loop remaining (S attempts) (slept ++ [retry_delay (S attempts)]).
Proof.
  intros H Hr Hm; cbn [attempt_loop]; rewrite H, Hr.
  apply Nat.leb_le in Hm; rewrite Hm; reflexivity.
Qed.

Lemma attempt_loop_degrade (remaining attempts : nat) (slept : list Z) e :
  replies (S attempts) = Failed e ->
  (isRateLimit e && (S attempts <=? maxRetries engine))%bool = false ->
  loop (S remaining) attempts slept =
  mkRun (degrade e staticFeatures configFeatures) slept.
Proof. intros H Hr; cbn [attempt_loop]; rewrite H, Hr; reflexivity. Qed.

(** The pauses of a run are those of the retries [attempts + 1], ...,
    [attempts + n]; each followed a rate-limited attempt, the count stays
    within the ceiling, and it stops short of the ceiling only at an attempt
    that was not rate limited. *)
Lemma attempt_loop_waited (remaining : nat) :
  forall attempts slept,
    S remaining + attempts = S (maxRetries engine) ->
    exists n,
      attempts + n <= maxRetries engine /\
      waited (loop (S remaining) attempts slept) =
        (slept ++ map retry_delay (seq (S attempts) n))%list /\
      (forall k, attempts < k <= attempts + n -> rate_limited k) /\
      (attempts + n < maxRetries engine -> ~ rate_limited (S (attempts + n))).
Proof.
  induction remaining as [| remaining IH]; intros attempts slept Hsum.
  - exists 0; rewrite Nat.add_0_r, app_nil_r.
    split; [lia |]; split; [| split; [intros k Hk; lia | lia]].
    cbn [attempt_loop].
    destruct (replies (S attempts)) as [d | e]; [reflexivity |].
    replace (S attempts <=? maxRetries engine) with false
      by (symmetry; apply Nat.leb_gt; lia).
    rewrite andb_false_r; reflexivity.
  - destruct (replies (S attempts)) as [d | e] eqn:R.
    + exists 0; rewrite Nat.add_0_r, app_nil_r, (attempt_loop_parsed _ _ _ d R).
      split; [lia |]; split; [reflexivity |]; split; [intros k Hk; lia |].
      intros _ [e [R' _]]; congruence.
    + destruct (isRateLimit e) eqn:L.
      * rewrite (attempt_loop_retry _ _ _ e R L) by lia.
        destruct (IH (S attempts) (slept ++ [retry_delay (S attempts)])%list)
          as [n [Hn [Hw [Hk Hstop]]]]; [lia |].
        exists (S n); split; [lia |]; split; [| split].
        -- rewrite Hw, <- app_assoc; reflexivity.
        -- intros k Hr.
           destruct (Nat.eq_dec k (S attempts)) as [-> | Hne];
             [exists e; auto | apply Hk; lia].
        -- rewrite Nat.add_succ_r; exact Hstop.
      * exists 0; rewrite Nat.add_0_r, app_nil_r.
        rewrite (attempt_loop_degrade _ _ _ e R) by (rewrite L; reflexivity).
        split; [lia |]; split; [reflexivity |]; split; [intros k Hk; lia |].
        intros _ [e' [R' L']]; congruence.
Qed.

Definition text_is_not_defined : Error :=
  mkError "ReferenceError" "text is not defined" None.

(** [text] is declared in the [try] block and in no scope of the [catch]
    clause. *)
Lemma text_scope :
  existsb (String.eqb "text") try_block = true /\
  existsb (String.eqb "text") catch_scope = false.
Proof. split; reflexivity. Qed.

(** The [catch] clause reads [text]. *)
Lemma degrade_throws (e : Error) :
  degrade e staticFeatures configFeatures = Throw text_is_not_defined.
Proof. reflexivity. Qed.

End Retry.

Import AIEngine.

Definition total_waited (r : Run) : Z := fold_left Z.add (waited r) 0%Z.

(** [k] starts [s], and [k] occurs in [s]: the meaning of [String.prefix]
    and of [includes]. *)
Lemma prefix_spec (k s : string) :
  String.prefix k s = true <-> exists after, s = (k ++ after)%string.
Proof.
  revert s; induction k as [| a k IH]; intros s.
  - destruct s; simpl; (split; [intros _; eexists; reflexivity | reflexivity]).
  - destruct s as [| b s]; simpl; [split; [discriminate | intros [after [=]]] |].
    destruct (ascii_dec a b) as [-> | Hne].
    + rewrite IH; split; intros [after E]; exists after; [now rewrite E | now injection E].
    + split; [discriminate | intros [after [= E _]]; congruence].
Qed.

Lemma includes_spec (s k : string) :
  includes s k = true <-> exists before after, s = (before ++ k ++ after)%string.
Proof.
  induction s as [| c r IH]; cbn [includes]; rewrite orb_true_iff, prefix_spec.
  - split.
    + intros [[after E] | H]; [exists "", after; exact E | discriminate].
    + intros [[| c before] [after E]]; [left; exists after; exact E | discriminate].
  - rewrite IH; split.
    + intros [[after E] | [before [after E]]].
      * exists "", after; exact E.
      * exists (String c before), after; simpl; now rewrite E.
    + intros [[| c' before] [after E]].
      * left; exists after; exact E.
      * right; injection E as _ E; eauto.
Qed.

(** The rate-limit signal of a failure: 429 is written in its message, or
    its [status] is the number 429. *)
Definition rate_limit_signal (e : Error) : Prop :=
  (exists before after, JS.message e = (before ++ "429" ++ after)%string) \/
  JS.status e = Some 429%Z.

Lemma isRateLimit_signal (e : Error) : isRateLimit e = true <-> rate_limit_signal e.
Proof.
  unfold isRateLimit, rate_limit_signal; rewrite orb_true_iff, includes_spec.
  destruct (JS.status e) as [c |].
  - rewrite Z.eqb_eq; split; intros [H | H]; auto; [right; now subst | right; congruence].
  - split; intros [H | H]; auto; discriminate.
Qed.

(** Attempt [k] failed and the failure carries the rate-limit signal. *)
Definition signalled (replies : nat -> Reply) (k : nat) : Prop :=
  exists e, replies k = Failed e /\ rate_limit_signal e.

Lemma rate_limited_signalled (replies : nat -> Reply) (k : nat) :
  rate_limited replies k <-> signalled replies k.
Proof.
  unfold rate_limited, signalled; split; intros [e [R L]]; exists e;
    (split; [exact R | now apply isRateLimit_signal]).
Qed.

(** [value] is the parsed reply [aiData] itself as the engine hands it on:
    every field of the reply unchanged, its feature rows included, except
    that a reply with feature rows has its overall status recomputed from
    them (FAIL when some row failed, PASS when none did). *)
Definition successful_payload (aiData value : option Analysis) : Prop :=
  match aiData with
  | None => value = None
  | Some a =>
      exists a',
        value = Some a' /\
        mock a' = mock a /\ error a' = error a /\
        result_status a' = result_status a /\ AIEngine.message a' = AIEngine.message a /\
        feature_results a' = feature_results a /\
        match feature_results a with
        | None => overall_status a' = overall_status a
        | Some rows =>
            ((exists f, In f rows /\ AIEngine.status f = "FAIL") ->
             overall_status a' = Some "FAIL") /\
            ((forall f, In f rows -> AIEngine.status f <> "FAIL") ->
             overall_status a' = Some "PASS")
        end
  end.

Lemma processResults_payload (aiData : option Analysis) :
  successful_payload aiData (processResults aiData).
Proof.
  destruct aiData as [a |]; [| reflexivity]; unfold successful_payload, processResults.
  destruct (feature_results a) as [rows |] eqn:E.
  - eexists; split; [reflexivity |]; cbn [mock error result_status AIEngine.message
                                            feature_results overall_status].
    repeat (split; [first [reflexivity | exact E] |]).
    split.
    + intros [f [Hin Hf]].
      assert (existsb (fun f => String.eqb (AIEngine.status f) "FAIL") rows = true) as ->
        by (apply existsb_exists; exists f; split; [exact Hin | now apply String.eqb_eq]).
      reflexivity.
    + intros Hnone.
      destruct (existsb (fun f => String.eqb (AIEngine.status f) "FAIL") rows) eqn:X;
        [| reflexivity].
      apply existsb_exists in X; destruct X as [f [Hin Hf]].
      apply String.eqb_eq in Hf; now elim (Hnone f Hin).
  - exists a; repeat split; first [reflexivity | exact E].
Qed.

(** C6.  With an API key set, a run pauses only after attempts that failed
    with the rate-limit signal (429 in the message of the failure, or status
    429), at most five times, and the pause before retry k is 5000 ms times
    2^(k-1); it stops retrying before the ceiling only at an attempt that
    did not fail with that signal.  When attempts 1 and 2 fail with the
    signal and attempt 3 succeeds, the run waits 5000 + 10000 ms and returns
    the payload of attempt 3: the parsed reply with its fields and feature
    rows, the overall status recomputed from the rows, and not an error
    record. *)
Theorem analyzeScreenshot_retry (key : string) (replies : nat -> Reply)
  (staticFeatures configFeatures : option (list Feature)) :
  key <> "" ->
  let engine := AIEngine.new (Some key) in
  let run := analyzeScreenshot engine replies staticFeatures configFeatures in
  (exists n, n <= 5 /\
     waited run = map (fun k => (5000 * 2 ^ (Z.of_nat k - 1))%Z) (seq 1 n) /\
     (forall k, 1 <= k <= n -> signalled replies k) /\
     (n < 5 -> ~ signalled replies (S n))) /\
  (forall aiData,
     signalled replies 1 -> signalled replies 2 -> replies 3 = Parsed aiData ->
     (exists value, returned run = Ret value /\ successful_payload aiData value) /\
     waited run = [5000; 10000]%Z /\
     total_waited run = 15000%Z).
Proof.
  intros Hkey engine run.
  assert (Hrun : run = attempt_loop engine replies staticFeatures configFeatures 6 0 []).
  { unfold run, analyzeScreenshot, engine, AIEngine.new; cbn [apiKey maxRetries].
    destruct (String.eqb_spec key ""); [contradiction | reflexivity]. }
  split.
  - destruct (attempt_loop_waited engine replies staticFeatures configFeatures 5 0 [])
      as [n [Hn [Hw [Hk Hstop]]]]; [reflexivity |].
    exists n; rewrite Hrun; split; [exact Hn |]; split; [exact Hw |].
    split.
    + intros k Hr; apply rate_limited_signalled, Hk; lia.
    + intros Hlt Hs; apply (Hstop Hlt), rate_limited_signalled, Hs.
  - intros aiData S1 S2 R3.
    apply rate_limited_signalled in S1, S2.
    destruct S1 as [e1 [R1 L1]]; destruct S2 as [e2 [R2 L2]].
    assert (E : run = mkRun (Ret (processResults aiData)) [5000; 10000]%Z).
    { rewrite Hrun.
      rewrite (attempt_loop_retry engine replies _ _ _ _ _ e1 R1 L1)
        by (cbn; lia).
      rewrite (attempt_loop_retry engine replies _ _ _ _ _ e2 R2 L2)
        by (cbn; lia).
      rewrite (attempt_loop_parsed engine replies _ _ _ _ _ aiData R3).
      reflexivity. }
    rewrite E; split; [| split; reflexivity].
    eexists; split; [reflexivity | apply processResults_payload].
Qed.

Definition too_many_requests : Error :=
  mkError "Error" "[429 Too Many Requests] Resource has been exhausted" (Some 429%Z).

Definition fetch_failed : Error := mkError "TypeError" "fetch failed" None.

Definition two_features : option (list Feature) :=
  Some [FeatureName "Show Review Date"; FeatureName "Inline CTA"].

Definition passing_reply : Analysis :=
  mkAnalysis false None None None None
    (Some [mkFeatureResult "Show Review Date" "Visible" "Visible" "Normal" "PASS" None]).

(** Two rate-limited attempts, then a reply. *)
Definition third_time_lucky (k : nat) : Reply :=
  if k <=? 2 then Failed too_many_requests else Parsed (Some passing_reply).

Lemma analyzeScreenshot_retry_witness :
  let run := analyzeScreenshot (AIEngine.new (Some "key")) third_time_lucky two_features None in
  (exists value,
      returned run = Ret value /\ successful_payload (Some passing_reply) value) /\
  waited run = [5000; 10000]%Z /\
  total_waited run = 15000%Z.
Proof.
  apply (proj2 (analyzeScreenshot_retry "key" third_time_lucky two_features None
                  ltac:(discriminate)) (Some passing_reply)).
  - exists too_many_requests; split; [reflexivity | right; reflexivity].
  - exists too_many_requests; split; [reflexivity | right; reflexivity].
  - reflexivity.
Defined.

(** A failure that is not retried leaves [analyzeScreenshot] through the
    exception of its [catch] clause. *)
Lemma analyzeScreenshot_failure (key : string) (replies : nat -> Reply)
  (staticFeatures configFeatures : option (list Feature)) (e : Error) :
  key <> "" -> replies 1 = Failed e -> isRateLimit e = false ->
  returned (analyzeScreenshot (AIEngine.new (Some key)) replies staticFeatures configFeatures) =
  Throw text_is_not_defined.
Proof.
  intros Hkey R L; unfold analyzeScreenshot, AIEngine.new; cbn [apiKey maxRetries].
  destruct (String.eqb_spec key ""); [contradiction |].
  rewrite (attempt_loop_degrade _ replies _ _ _ _ _ e R) by (rewrite L; reflexivity).
  reflexivity.
Qed.

(** C7, on the code.  A request that fails without a rate-limit signal, and
    a request that is rate limited on all six attempts, both end in a
    ReferenceError: no error record is returned. *)
Theorem analyzeScreenshot_failure_throws :
  let engine := AIEngine.new (Some "key") in
  returned (analyzeScreenshot engine (fun _ => Failed fetch_failed) two_features None) =
    Throw text_is_not_defined /\
  returned (analyzeScreenshot engine (fun _ => Failed too_many_requests) two_features None) =
    Throw text_is_not_defined /\
  waited (analyzeScreenshot engine (fun _ => Failed too_many_requests) two_features None) =
    [5000; 10000; 20000; 40000; 80000]%Z.
Proof. repeat split; reflexivity. Qed.

(** ** A page without widget *)

Section NotFound.

Import PlaywrightHelper.

Variable w : World.
Variable staticFeatures : option (list Feature).

(** The screenshot directory exists or can be made, and every file is
    written. *)
Definition disk_ok : Prop :=
  (directory_exists w = true \/ mkdir w = Ret tt) /\
  (forall path, write w path = Ret tt).

Lemma save_returns (h : Helper) (dir : string) (n : nat)
  (buffers : list (option Capture)) :
  (forall path, write w path = Ret tt) ->
  forall i, exists paths, save w h dir n i buffers = Ret paths.
Proof.
  intros Hw; induction buffers as [| [b |] rest IH]; intros i; cbn [save].
  - eexists; reflexivity.
  - rewrite Hw; cbn [bind]; destruct (IH (S i)) as [paths E]; rewrite E.
    eexists; reflexivity.
  - apply IH.
Qed.




End NotFound.

Import PlaywrightHelper.


Definition empty_page : World :=
  mkWorld false (Ret 0) false (Ret 7)
    (fun _ h => Completed h []) false (Ret 8)
    1700000000000%Z "/work" true (Ret tt) (fun _ => Ret tt)
    third_time_lucky.

Definition fresh_helper : Helper :=
  mkHelper (AIEngine.new (Some "key"))
    (PlaywrightHelper.mkConfig None no_cross)
    "MARQUEE_STRIPE" "Unknown" None None None.







(* ------------------------------------------------------------------ *)
(** * Further properties *)

(** ** Characters and strings *)

Ltac ascii_cases c := destruct c as [[] [] [] [] [] [] [] []].

Fixpoint any (p : ascii -> bool) (s : string) : bool :=
  match s with
  | EmptyString => false
  | String c r => (p c || any p r)%bool
  end.

Definition is_lower : ascii -> bool := in_range "a" "z".
Definition is_upper : ascii -> bool := in_range "A" "Z".
Definition is_underscore (c : ascii) : bool := Ascii.eqb c "_".

Lemma any_none (p : ascii -> bool) (f : ascii -> ascii) (s : string) :
  (forall c, p (f c) = false) -> any p (map_chars f s) = false.
Proof.
  intros H; induction s as [| c r IH]; simpl; [reflexivity |].
  now rewrite H, IH.
Qed.

Lemma any_remove_chars (p q : ascii -> bool) (s : string) :
  any p s = false -> any p (remove_chars q s) = false.
Proof.
  induction s as [| c r IH]; simpl; [reflexivity |].
  intros H; apply orb_false_elim in H; destruct H as [Hc Hr].
  destruct (q c); simpl; [auto | now rewrite Hc, IH].
Qed.

Lemma upper_char_not_lower (c : ascii) : is_lower (upper_char c) = false.
Proof. ascii_cases c; reflexivity. Qed.

Lemma lower_char_not_upper (c : ascii) : is_upper (lower_char c) = false.
Proof. ascii_cases c; reflexivity. Qed.

Lemma lower_upper_char (c : ascii) : lower_char (upper_char c) = lower_char c.
Proof. ascii_cases c; reflexivity. Qed.

Lemma upper_upper_char (c : ascii) : upper_char (upper_char c) = upper_char c.
Proof. ascii_cases c; reflexivity. Qed.

Lemma lower_lower_char (c : ascii) : lower_char (lower_char c) = lower_char c.
Proof. ascii_cases c; reflexivity. Qed.

Lemma upper_lower_char (c : ascii) : upper_char (lower_char c) = upper_char c.
Proof. ascii_cases c; reflexivity. Qed.

Lemma map_chars_compose (f g h : ascii -> ascii) (s : string) :
  (forall c, f (g c) = h c) -> map_chars f (map_chars g s) = map_chars h s.
Proof.
  intros H; induction s as [| c r IH]; simpl; [reflexivity |].
  now rewrite H, IH.
Qed.

(** An uppercased string with its separators underscored has no lowercase
    letter; a lowercased string with its separators stripped has neither an
    uppercase letter nor an underscore. *)
Lemma upper_name_no_lower (s : string) :
  any is_lower (underscore_separators (toUpperCase s)) = false.
Proof.
  unfold underscore_separators, toUpperCase.
  rewrite (map_chars_compose _ _
             (fun c => if (Ascii.eqb (upper_char c) "-" || Ascii.eqb (upper_char c) " ")%bool
                       then "_"%char else upper_char c))
    by reflexivity.
  apply (any_none is_lower); intros c; ascii_cases c; reflexivity.
Qed.

Lemma normalized_no_upper (s : string) :
  any is_upper (strip_separators (toLowerCase s)) = false.
Proof.
  apply any_remove_chars, (any_none is_upper), lower_char_not_upper.
Qed.

Lemma remove_chars_none (q : ascii -> bool) (s : string) :
  any q (remove_chars q s) = false.
Proof.
  induction s as [| c r IH]; simpl; [reflexivity |].
  destruct (q c) eqn:E; simpl; [exact IH | now rewrite E, IH].
Qed.

Lemma any_weaken (p q : ascii -> bool) (s : string) :
  (forall c, p c = true -> q c = true) -> any q s = false -> any p s = false.
Proof.
  intros H; induction s as [| c r IH]; simpl; [reflexivity |].
  intros Hq; apply orb_false_elim in Hq; destruct Hq as [Hc Hr].
  rewrite (IH Hr), orb_false_r.
  destruct (p c) eqn:E; [| reflexivity].
  now rewrite (H c E) in Hc.
Qed.

Lemma normalized_no_underscore (s : string) :
  any is_underscore (strip_separators (toLowerCase s)) = false.
Proof.
  unfold strip_separators.
  apply (any_weaken _ (fun c => (Ascii.eqb c "_" || Ascii.eqb c "-" || Ascii.eqb c " ")%bool)).
  - intros c H; unfold is_underscore in H; now rewrite H.
  - apply remove_chars_none.
Qed.

Lemma existsb_eqb_In (k : string) (l : list string) :
  existsb (String.eqb k) l = true -> In k l.
Proof.
  intros H; apply existsb_exists in H; destruct H as [x [Hin E]].
  apply String.eqb_eq in E; now subst.
Qed.

(** No name inherited from [Object.prototype] is all uppercase; only
    [constructor] is all lowercase without underscore. *)
Lemma inherited_upper_name (s : string) :
  inherited (underscore_separators (toUpperCase s)) = false.
Proof.
  destruct (inherited _) eqn:E; [| reflexivity].
  apply existsb_eqb_In in E; pose proof (upper_name_no_lower s) as H.
  unfold Object_prototype in E; simpl in E.
  repeat (destruct E as [E | E]; [rewrite <- E in H; discriminate H |]).
  contradiction.
Qed.

Lemma inherited_normalized (s : string) :
  inherited (strip_separators (toLowerCase s)) = true ->
  strip_separators (toLowerCase s) = "constructor".
Proof.
  intros E; apply existsb_eqb_In in E.
  pose proof (normalized_no_upper s) as Hu.
  pose proof (normalized_no_underscore s) as Hs.
  unfold Object_prototype in E; simpl in E.
  destruct E as [E | E]; [now symmetry |].
  repeat (destruct E as [E | E];
          [rewrite <- E in Hu, Hs; first [discriminate Hu | discriminate Hs] |]).
  contradiction.
Qed.

(** ** The taxonomy tables *)

Lemma own_In {V : Type} (table : list (string * V)) (k : string) (v : V) :
  own table k = Some v -> In (k, v) table.
Proof.
  induction table as [| [k' v'] rest IH]; simpl; [discriminate |].
  destruct (String.eqb_spec k k') as [-> | _].
  - intros [= ->]; now left.
  - intros H; right; auto.
Qed.

Lemma names_constants (k : string) (z : Z) :
  In (k, z) WidgetTypeNames <-> In (z, k) WidgetTypeConstants.
Proof.
  unfold WidgetTypeNames, WidgetTypeConstants; simpl; split; intros H;
    repeat (destruct H as [[= <- <-] | H]; [tauto |]); contradiction.
Qed.

Lemma constants_by_code (z : Z) (name : string) :
  In (z, name) WidgetTypeConstants <-> by_code WidgetTypeConstants z = Some name.
Proof.
  split.
  - unfold WidgetTypeConstants; simpl; intros H.
    repeat (destruct H as [[= <- <-] | H]; [reflexivity |]); contradiction.
  - unfold WidgetTypeConstants; simpl.
    repeat match goal with
           | |- context [(z =? ?c)%Z] =>
               destruct (Z.eqb_spec z c) as [-> | _]; [intros [= <-]; tauto |]
           end.
    discriminate.
Qed.

Lemma constants_own_name (z : Z) (name : string) :
  In (z, name) WidgetTypeConstants -> own WidgetTypeNames name = Some z.
Proof.
  unfold WidgetTypeConstants; simpl; intros H.
  repeat (destruct H as [[= <- <-] | H]; [reflexivity |]); contradiction.
Qed.

Lemma constants_canonical (z : Z) (name : string) :
  In (z, name) WidgetTypeConstants -> In name canonical_names.
Proof.
  intros H; apply names_constants in H.
  unfold canonical_names; change name with (fst (name, z)); now apply in_map.
Qed.

Lemma alias_canonical (k v : string) :
  own WidgetAliases k = Some v -> In v canonical_names.
Proof.
  intros H; apply own_In in H; unfold WidgetAliases in H; simpl in H.
  repeat (destruct H as [[= <- <-] | H]; [vm_compute; tauto |]); contradiction.
Qed.

Lemma canonical_own (c : string) :
  In c canonical_names -> exists z, own WidgetTypeNames c = Some z /\ In (z, c) WidgetTypeConstants.
Proof.
  unfold canonical_names; simpl; intros H.
  repeat (destruct H as [<- | H]; [eexists; split; [reflexivity | simpl; tauto] |]).
  contradiction.
Qed.

(** What [resolve_name] can yield. *)
Lemma resolve_name_range (s : string) (r : WidgetDetector.result) :
  resolve_name s = Some r ->
  (exists c, r = Str c /\ In c canonical_names) \/ r = Inherited "constructor".
Proof.
  unfold resolve_name, alias_of, is_type_name.
  destruct (own WidgetAliases (strip_separators (toLowerCase s))) as [v |] eqn:Ea.
  - intros [= <-]; left; exists v; split; [reflexivity | eapply alias_canonical; eauto].
  - destruct (inherited (strip_separators (toLowerCase s))) eqn:Ei.
    + intros [= <-]; right; now rewrite (inherited_normalized s Ei).
    + destruct (own WidgetTypeNames (underscore_separators (toUpperCase s))) as [z |] eqn:En.
      * intros [= <-]; left; eexists; split; [reflexivity |].
        apply own_In in En; unfold canonical_names.
        change (underscore_separators (toUpperCase s))
          with (fst (underscore_separators (toUpperCase s), z)).
        now apply in_map.
      * rewrite inherited_upper_name; discriminate.
Qed.

(** ** Type ids *)

Lemma getTypeId_resolve (s : string) :
  getTypeId s =
  match resolve s with
  | Some r => type_id_of r
  | None => IdNull
  end.
Proof.
  unfold getTypeId, resolve; destruct (String.eqb s ""); [reflexivity |].
  destruct (alias_of _); reflexivity.
Qed.

Lemma result_eqb_eq (a b : WidgetDetector.result) : result_eqb a b = true -> a = b.
Proof.
  destruct a, b; simpl; try discriminate; intros H;
    apply String.eqb_eq in H; now subst.
Qed.

Lemma isSameType_resolve (a b : string) :
  isSameType a b = true <-> resolve a = resolve b.
Proof.
  unfold isSameType; destruct (resolve a) as [x |], (resolve b) as [y |];
    split; try discriminate; try reflexivity.
  - intros H; now rewrite (result_eqb_eq x y H).
  - intros [= ->]; apply result_eqb_refl.
Qed.

(** What [resolve] yields on a non-empty string, by the way it was found. *)
Lemma resolve_cases (s : string) (r : WidgetDetector.result) :
  resolve s = Some r ->
  (exists c, r = Str c /\ In c canonical_names) \/
  r = Inherited "constructor" \/
  r = Str (underscore_separators (toUpperCase s)).
Proof.
  unfold resolve, alias_of; destruct (String.eqb s ""); [discriminate |].
  destruct (own WidgetAliases (strip_separators (toLowerCase s))) as [v |] eqn:Ea.
  - intros [= <-]; left; exists v; split; [reflexivity | eapply alias_canonical; eauto].
  - destruct (inherited (strip_separators (toLowerCase s))) eqn:Ei; intros [= <-].
    + right; left; now rewrite (inherited_normalized s Ei).
    + right; right; reflexivity.
Qed.

Lemma constants_range (z : Z) (name : string) :
  In (z, name) WidgetTypeConstants -> (4 <= z <= 11)%Z.
Proof.
  unfold WidgetTypeConstants; simpl; intros H.
  repeat (destruct H as [[= <- <-] | H]; [lia |]); contradiction.
Qed.

Lemma identify_constant (z : Z) (name : string) :
  In (z, name) WidgetTypeConstants -> identify (of_code z) = Str name.
Proof.
  intros H; apply constants_by_code in H; now rewrite identify_of_code, H.
Qed.

Lemma type_id_of_canonical (c : string) :
  In c canonical_names ->
  exists z, type_id_of (Str c) = Id z /\ In (z, c) WidgetTypeConstants.
Proof.
  intros H; destruct (canonical_own c H) as [z [E Hz]].
  exists z; unfold type_id_of; rewrite E; auto.
Qed.

(** X1.  [getTypeId] inverts the code table: the canonical name of a code
    has that code as id; an id that [getTypeId] returns is the code of the
    canonical name the argument resolves to, and [identify] maps it back to
    that name.  No inherited object is ever returned: the result is a code
    of the taxonomy or null. *)
Theorem getTypeId_codes :
  (forall code name, In (code, name) WidgetTypeConstants -> getTypeId name = Id code) /\
  (forall s code, getTypeId s = Id code ->
     exists name,
       resolve s = Some (Str name) /\
       In (code, name) WidgetTypeConstants /\
       identify (of_code code) = Str name) /\
  (forall s, getTypeId s = IdNull \/
             exists code, getTypeId s = Id code /\ (4 <= code <= 11)%Z).
Proof.
  split; [| split].
  - intros code name H; unfold WidgetTypeConstants in H; simpl in H.
    repeat (destruct H as [[= <- <-] | H]; [reflexivity |]); contradiction.
  - intros s code H; rewrite getTypeId_resolve in H.
    destruct (resolve s) as [[k | k] |] eqn:R; try discriminate H.
    unfold type_id_of in H.
    destruct (own WidgetTypeNames k) as [z |] eqn:E;
      [| destruct (inherited k); discriminate H].
    injection H as ->.
    apply own_In, names_constants in E.
    exists k; split; [reflexivity | split; [exact E |]].
    now apply identify_constant.
  - intros s; rewrite getTypeId_resolve.
    destruct (resolve s) as [r |] eqn:R; [| now left].
    destruct (resolve_cases s r R) as [[c [-> Hc]] | [-> | ->]].
    + right; destruct (type_id_of_canonical c Hc) as [z [E Hz]].
      exists z; split; [exact E |].
      eapply constants_range; eauto.
    + now left.
    + unfold type_id_of; destruct (own WidgetTypeNames _) as [z |] eqn:E.
      * right; exists z; split; [reflexivity |].
        apply own_In, names_constants in E.
        eapply constants_range; eauto.
      * rewrite inherited_upper_name; now left.
Qed.

Lemma getTypeId_codes_witness :
  getTypeId "MARQUEE_UPDOWN" = Id 9 /\
  exists name,
    resolve "strip slider" = Some (Str name) /\
    In (6%Z, name) WidgetTypeConstants /\
    identify (of_code 6) = Str name.
Proof.
  split.
  - apply (proj1 getTypeId_codes); simpl; tauto.
  - apply (proj1 (proj2 getTypeId_codes) "strip slider"); reflexivity.
Defined.

Lemma type_id_of_injective (c c' : string) :
  In c canonical_names -> In c' canonical_names ->
  type_id_of (Str c) = type_id_of (Str c') -> c = c'.
Proof.
  unfold canonical_names; simpl; intros H H'.
  repeat (destruct H as [<- | H]; [| try contradiction]);
    repeat (destruct H' as [<- | H']; [| try contradiction]);
    intros E; first [reflexivity | discriminate E].
Qed.

(** X2.  Names of the same type have the same id, whatever the two strings
    are; on canonical names and aliases, equal ids conversely mean the same
    type. *)
Theorem isSameType_getTypeId :
  (forall a b, isSameType a b = true -> getTypeId a = getTypeId b) /\
  (forall a b, In a vocabulary -> In b vocabulary ->
     getTypeId a = getTypeId b -> isSameType a b = true).
Proof.
  split.
  - intros a b H; apply isSameType_resolve in H.
    now rewrite !getTypeId_resolve, H.
  - intros a b Ha Hb H.
    destruct (resolve_vocabulary a Ha) as [Ra Ca].
    destruct (resolve_vocabulary b Hb) as [Rb Cb].
    rewrite !getTypeId_resolve, Ra, Rb in H.
    apply isSameType_resolve; rewrite Ra, Rb.
    now rewrite (type_id_of_injective _ _ Ca Cb H).
Qed.

Lemma isSameType_getTypeId_witness :
  getTypeId "Strip-Slider" = getTypeId "marquee stripe" /\
  isSameType "carousel" "CAROUSEL_SLIDER" = true.
Proof.
  split.
  - apply (proj1 isSameType_getTypeId); reflexivity.
  - apply (proj2 isSameType_getTypeId).
    + unfold vocabulary; simpl; tauto.
    + unfold vocabulary; simpl; tauto.
    + reflexivity.
Defined.

(** ** Spelling of names *)

(** The record [{type: s}] with a string. *)
Definition of_name (s : string) : option WidgetDetector.Config :=
  Some (WidgetDetector.mkConfig VUndefined (VStr s)).

Lemma identify_of_name (s : string) :
  identify (of_name s) =
  match constant_of (parseInt_number s) with
  | Some name => Str name
  | None =>
      match resolve_name s with
      | Some r => r
      | None => Str "Unknown"
      end
  end.
Proof. reflexivity. Qed.

Lemma skip_spaces_map (f : ascii -> ascii) (s : string) :
  (forall c, is_space (f c) = is_space c) ->
  skip_spaces (map_chars f s) = map_chars f (skip_spaces s).
Proof.
  intros H; induction s as [| c r IH]; simpl; [reflexivity |].
  rewrite H; destruct (is_space c); [exact IH | reflexivity].
Qed.

Lemma digits_map (f : ascii -> ascii) (s : string) (acc : Z) (seen : bool) :
  (forall c, is_digit (f c) = is_digit c) ->
  (forall c, is_digit c = true -> f c = c) ->
  digits (map_chars f s) acc seen = digits s acc seen.
Proof.
  intros Hd Hf; revert acc seen; induction s as [| c r IH]; intros acc seen; simpl;
    [reflexivity |].
  rewrite Hd; destruct (is_digit c) eqn:E; [| reflexivity].
  now rewrite (Hf c E), IH.
Qed.

(** A character map that leaves white space, digits and signs alone does
    not change what [parseInt] reads. *)
Lemma parseInt_map (f : ascii -> ascii) (s : string) :
  (forall c, is_space (f c) = is_space c) ->
  (forall c, is_digit (f c) = is_digit c) ->
  (forall c, is_digit c = true -> f c = c) ->
  (forall c, Ascii.eqb (f c) "-" = Ascii.eqb c "-") ->
  (forall c, Ascii.eqb (f c) "+" = Ascii.eqb c "+") ->
  parseInt (map_chars f s) = parseInt s.
Proof.
  intros Hs Hd Hf Hm Hp; unfold parseInt; rewrite (skip_spaces_map f s Hs).
  destruct (skip_spaces s) as [| c r]; [reflexivity |].
  assert (sign : forall (c : ascii) (r : string),
             match String c r with
             | String "-" r' => option_map Z.opp (digits r' 0 false)
             | String "+" r' => digits r' 0 false
             | t => digits t 0 false
             end =
             if Ascii.eqb c "-" then option_map Z.opp (digits r 0 false)
             else if Ascii.eqb c "+" then digits r 0 false
             else digits (String c r) 0 false).
  { intros c0 r0; ascii_cases c0; reflexivity. }
  cbn [map_chars]; rewrite !sign, Hm, Hp.
  rewrite (digits_map f r 0 false Hd Hf).
  change (String (f c) (map_chars f r)) with (map_chars f (String c r)).
  now rewrite (digits_map f (String c r) 0 false Hd Hf).
Qed.

Lemma parseInt_toUpperCase (s : string) : parseInt (toUpperCase s) = parseInt s.
Proof.
  apply parseInt_map; intros c; try (ascii_cases c; reflexivity).
  ascii_cases c; solve [reflexivity | discriminate].
Qed.

Lemma parseInt_toLowerCase (s : string) : parseInt (toLowerCase s) = parseInt s.
Proof.
  apply parseInt_map; intros c; try (ascii_cases c; reflexivity).
  ascii_cases c; solve [reflexivity | discriminate].
Qed.

Lemma resolve_name_toUpperCase (s : string) :
  resolve_name (toUpperCase s) = resolve_name s.
Proof.
  unfold resolve_name, toLowerCase, toUpperCase.
  rewrite (map_chars_compose lower_char upper_char lower_char) by apply lower_upper_char.
  rewrite (map_chars_compose upper_char upper_char upper_char) by apply upper_upper_char.
  reflexivity.
Qed.

Lemma resolve_name_toLowerCase (s : string) :
  resolve_name (toLowerCase s) = resolve_name s.
Proof.
  unfold resolve_name, toLowerCase, toUpperCase.
  rewrite (map_chars_compose lower_char lower_char lower_char) by apply lower_lower_char.
  rewrite (map_chars_compose upper_char lower_char upper_char) by apply upper_lower_char.
  reflexivity.
Qed.

(** X3.  [identify] does not depend on the case of a string type: the
    uppercased and the lowercased string are identified as the string
    itself. *)
Theorem identify_case_insensitive (s : string) :
  identify (of_name (toUpperCase s)) = identify (of_name s) /\
  identify (of_name (toLowerCase s)) = identify (of_name s).
Proof.
  rewrite !identify_of_name; unfold parseInt_number.
  rewrite parseInt_toUpperCase, parseInt_toLowerCase.
  now rewrite resolve_name_toUpperCase, resolve_name_toLowerCase.
Qed.

Lemma digits_some (s : string) (acc z : Z) :
  digits s acc false = Some z -> any is_digit s = true.
Proof.
  destruct s as [| c r]; simpl; [discriminate |].
  destruct (is_digit c); [reflexivity | discriminate].
Qed.

Lemma any_skip_spaces (p : ascii -> bool) (s : string) :
  any p (skip_spaces s) = true -> any p s = true.
Proof.
  induction s as [| c r IH]; simpl; [discriminate |].
  destruct (is_space c); simpl; [| trivial].
  intros H; rewrite (IH H); apply orb_true_r.
Qed.

Lemma parseInt_some (s : string) (z : Z) :
  parseInt s = Some z -> any is_digit s = true.
Proof.
  unfold parseInt; intros H; apply any_skip_spaces.
  destruct (skip_spaces s) as [| c r]; [discriminate H |].
  assert (D : (exists y, digits r 0 false = Some y) \/
              (exists y, digits (String c r) 0 false = Some y)).
  { revert H; ascii_cases c; intros H;
      solve [ right; eauto
            | left; destruct (digits r 0 false); [eauto | discriminate H] ]. }
  destruct D as [[y D] | [y D]]; apply digits_some in D.
  - simpl; rewrite D; apply orb_true_r.
  - exact D.
Qed.

Lemma digit_survives (s : string) :
  any is_digit s = true -> any is_digit (strip_separators (toLowerCase s)) = true.
Proof.
  induction s as [| c r IH]; simpl; [discriminate |].
  intros H; apply orb_true_iff in H.
  assert (keep : is_digit c = true ->
                 remove_chars
                   (fun c => (Ascii.eqb c "_" || Ascii.eqb c "-" || Ascii.eqb c " ")%bool)
                   (String (lower_char c) (map_chars lower_char r)) =
                 String c (strip_separators (toLowerCase r))).
  { revert r IH H; ascii_cases c; intros r IH H Hd;
      solve [discriminate Hd | reflexivity]. }
  destruct (is_digit c) eqn:Hd.
  - unfold strip_separators, toLowerCase in *; cbn [map_chars].
    rewrite (keep eq_refl); simpl; now rewrite Hd.
  - destruct H as [H | H]; [discriminate |].
    specialize (IH H); unfold strip_separators, toLowerCase in *; cbn [map_chars remove_chars].
    destruct (_ || _ || _)%bool; [exact IH |].
    simpl; rewrite IH; apply orb_true_r.
Qed.

Lemma alias_key_no_digit (k v : string) :
  own WidgetAliases k = Some v -> any is_digit k = false.
Proof.
  intros H; apply own_In in H; unfold WidgetAliases in H; simpl in H.
  repeat (destruct H as [[= <- <-] | H]; [reflexivity |]); contradiction.
Qed.

(** X4.  A string that, lowercased and with its separators removed, is a key
    of the alias table is identified as the canonical name bound to the key:
    case, and underscores, hyphens and blanks anywhere, do not matter. *)
Theorem identify_alias_spelling (s canonical : string) :
  own WidgetAliases (strip_separators (toLowerCase s)) = Some canonical ->
  identify (of_name s) = Str canonical.
Proof.
  intros H; rewrite identify_of_name; unfold parseInt_number.
  destruct (parseInt s) as [z |] eqn:P.
  - apply parseInt_some, digit_survives in P.
    now rewrite (alias_key_no_digit _ _ H) in P.
  - change (constant_of NaN) with (@None string).
    unfold resolve_name, alias_of; now rewrite H.
Qed.

Lemma identify_alias_spelling_witness :
  identify (of_name " Marquee_Left-Right ") = Str "MARQUEE_LEFTRIGHT".
Proof. apply identify_alias_spelling; reflexivity. Defined.

(** ** What the classifier can answer *)

(** The answers of the taxonomy: a canonical name or 'Unknown', or the
    object that the alias table inherits under [constructor]. *)
Definition answer (r : WidgetDetector.result) : Prop :=
  (exists c, r = Str c /\ In c (canonical_names ++ ["Unknown"])) \/
  r = Inherited "constructor".

Lemma answer_canonical (c : string) : In c canonical_names -> answer (Str c).
Proof. intros H; left; exists c; split; [reflexivity | apply in_or_app; now left]. Qed.

Lemma answer_unknown : answer (Str "Unknown").
Proof. left; exists "Unknown"; split; [reflexivity | apply in_or_app; right; now left]. Qed.

Lemma answer_resolve_name (s : string) (r : WidgetDetector.result) :
  resolve_name s = Some r -> answer r.
Proof.
  intros H; destruct (resolve_name_range s r H) as [[c [-> Hc]] | ->];
    [now apply answer_canonical | now right].
Qed.

Lemma answer_constant (n : number) (name : string) :
  constant_of n = Some name -> answer (Str name).
Proof.
  unfold constant_of; destruct (integer_of n) as [z |]; [| discriminate].
  intros H; apply constants_by_code in H.
  eapply answer_canonical, constants_canonical; eauto.
Qed.

(** X5.  Whatever the configuration record holds, [identify] answers with
    a canonical name or 'Unknown', with one exception that the code has: a
    string type that normalizes to [constructor] finds the inherited
    [Object] function in the alias table, and that object is returned. *)
Theorem identify_answers :
  (forall config, answer (identify config)) /\
  identify (of_name "Constructor") = Inherited "constructor".
Proof.
  split; [| reflexivity].
  intros [[id t] |]; [| apply answer_unknown].
  unfold identify; cbn [widget_type_id type_field].
  destruct (nullish id t) as [| | b | n | s]; try apply answer_unknown.
  - destruct (constant_of n) as [name |] eqn:E;
      [eapply answer_constant; eauto | apply answer_unknown].
  - destruct (constant_of (parseInt_number s)) as [name |] eqn:E;
      [eapply answer_constant; eauto |].
    destruct (resolve_name s) as [r |] eqn:R;
      [eapply answer_resolve_name; eauto | apply answer_unknown].
Qed.

(** X6.  An identifying attribute that [identify] recognises as a type
    decides [discover]: the element is classified as [identify] classifies
    the attribute value, whatever its classes and markup are. *)
Theorem discover_attribute_as_identify (info : Info) (attr : string) :
  idAttr info = Some attr ->
  identify (of_name attr) <> Str "Unknown" ->
  discover (on_page info) = identify (of_name attr).
Proof.
  intros Ha Hk; rewrite identify_of_name in *.
  unfold on_page, discover, classify, attribute_type; rewrite Ha.
  destruct (constant_of (parseInt_number attr)); [reflexivity |].
  destruct (resolve_name attr); [reflexivity | contradiction].
Qed.

Lemma discover_attribute_as_identify_witness :
  discover (on_page (mkInfo (Some "6") "fe-masonry" "<p>carousel</p>" true)) =
  identify (of_name "6").
Proof.
  apply discover_attribute_as_identify; [reflexivity | discriminate].
Defined.

Lemma signature_type_none (signatures : list Signature) (cls : string) :
  signature_type signatures cls = None <->
  forall signature token,
    In signature signatures -> In token (classes signature) ->
    ~ whole_token token cls.
Proof.
  induction signatures as [| sg rest IH]; simpl.
  - split; [intros _ ? ? [] | reflexivity].
  - destruct (existsb (hasClass cls) (classes sg)) eqn:E.
    + split; [discriminate |].
      intros H; apply existsb_exists in E; destruct E as [tok [Hin Hc]].
      apply hasClass_whole_token in Hc; exfalso; eapply H; eauto.
    + rewrite IH; split.
      * intros H signature token [<- | Hin] Ht Hw; [| eapply H; eauto].
        apply hasClass_whole_token in Hw.
        assert (existsb (hasClass cls) (classes sg) = true)
          by (apply existsb_exists; eauto).
        congruence.
      * intros H signature token Hin; apply H; now right.
Qed.

Lemma signature_type_some (signatures : list Signature) (cls t : string) :
  signature_type signatures cls = Some t ->
  exists signature token,
    In signature signatures /\ type signature = t /\
    In token (classes signature) /\ whole_token token cls.
Proof.
  induction signatures as [| sg rest IH]; simpl; [discriminate |].
  destruct (existsb (hasClass cls) (classes sg)) eqn:E.
  - intros [= <-]; apply existsb_exists in E; destruct E as [tok [Hin Hc]].
    apply hasClass_whole_token in Hc; exists sg, tok; auto.
  - intros H; destruct (IH H) as [signature [token [Hin Hrest]]].
    exists signature, token; auto.
Qed.

(** X7.  For an element without resolved attribute, the class tier answers
    exactly when a class of some signature occurs as a whole word among the
    collected classes, and then with the type of a signature one of whose
    classes occurs; the anchor flag and the markup play no part.  When no
    signature class occurs, the answer is the keyword guess of the anchor or
    of the snippet tier. *)
Theorem discover_by_signature (info : Info) :
  attribute_type (idAttr info) = None ->
  ((exists signature token,
       In signature CSS_SIGNATURES /\ In token (classes signature) /\
       whole_token token (allClasses info)) ->
   exists signature token,
     In signature CSS_SIGNATURES /\ In token (classes signature) /\
     whole_token token (allClasses info) /\
     discover (on_page info) = Str (type signature)) /\
  ((forall signature token,
       In signature CSS_SIGNATURES -> In token (classes signature) ->
       ~ whole_token token (allClasses info)) ->
   discover (on_page info) =
   Str (if isFeedspaceAnchor info then anchor_guess (htmlSnippet info)
        else snippet_guess (htmlSnippet info))).
Proof.
  intros Ha; unfold on_page, discover, classify; rewrite Ha; split.
  - intros [sg [tok [Hin [Ht Hw]]]].
    destruct (signature_type CSS_SIGNATURES (allClasses info)) as [t |] eqn:E.
    + destruct (signature_type_some _ _ _ E) as [sg' [tok' [Hin' [<- [Ht' Hw']]]]].
      exists sg', tok'; auto.
    + exfalso; eapply (proj1 (signature_type_none _ _) E); eauto.
  - intros H; apply signature_type_none in H; rewrite H.
    destruct (isFeedspaceAnchor info); reflexivity.
Qed.

Definition carousel_signature : Signature :=
  mkSignature ["feedspace-carousel-widget"; "testimonial-slider"; "carousel_slider"]
    "CAROUSEL_SLIDER".

Lemma discover_by_signature_witness :
  exists signature token,
    In signature CSS_SIGNATURES /\ In token (classes signature) /\
    whole_token token "page testimonial-slider" /\
    discover (on_page (mkInfo None "page testimonial-slider" "<p>masonry</p>" false)) =
    Str (type signature).
Proof.
  apply (proj1 (discover_by_signature
                  (mkInfo None "page testimonial-slider" "<p>masonry</p>" false)
                  eq_refl)).
  exists carousel_signature, "testimonial-slider"; split; [simpl; tauto |].
  split; [simpl; tauto |].
  apply hasClass_whole_token; reflexivity.
Defined.

Lemma signature_types_canonical (signature : Signature) :
  In signature CSS_SIGNATURES -> In (type signature) canonical_names.
Proof.
  unfold CSS_SIGNATURES; simpl; intros H.
  repeat (destruct H as [<- | H]; [simpl; tauto |]); contradiction.
Qed.

(** X8.  Whatever the page hands back, or fails to hand back, [discover]
    answers with a canonical name or 'Unknown', the inherited [constructor]
    object apart (reachable through an identifying attribute only). *)
Theorem discover_answers :
  (forall locator, answer (discover locator)) /\
  (forall info, idAttr info = None ->
     exists c, discover (on_page info) = Str c /\ In c (canonical_names ++ ["Unknown"])).
Proof.
  assert (guess : forall info,
             attribute_type (idAttr info) = None ->
             exists c, classify info = Str c /\ In c (canonical_names ++ ["Unknown"])).
  { intros info Ha; unfold classify; rewrite Ha.
    destruct (signature_type CSS_SIGNATURES (allClasses info)) as [t |] eqn:E.
    - destruct (signature_type_some _ _ _ E) as [sg [tok [Hin [<- _]]]].
      eexists; split; [reflexivity |].
      apply in_or_app; left; now apply signature_types_canonical.
    - destruct (isFeedspaceAnchor info); eexists; (split; [reflexivity |]).
      + unfold anchor_guess;
          repeat match goal with |- context [if ?b then _ else _] => destruct b end;
          simpl; tauto.
      + unfold snippet_guess;
          repeat match goal with |- context [if ?b then _ else _] => destruct b end;
          simpl; tauto. }
  split.
  - intros [[e | [info |]] |]; try apply answer_unknown.
    unfold discover.
    destruct (attribute_type (idAttr info)) as [r |] eqn:Ha.
    + unfold classify; rewrite Ha.
      unfold attribute_type in Ha; destruct (idAttr info) as [attr |]; [| discriminate].
      destruct (constant_of (parseInt_number attr)) as [name |] eqn:E.
      * injection Ha as <-; eapply answer_constant; eauto.
      * eapply answer_resolve_name; eauto.
    + destruct (guess info Ha) as [c [-> Hc]]; left; eauto.
  - intros info Ha; apply guess; now rewrite Ha.
Qed.

Lemma discover_answers_witness :
  exists c, discover (on_page (mkInfo None "card" "<p>reviews</p>" false)) = Str c /\
            In c (canonical_names ++ ["Unknown"]).
Proof. apply (proj2 discover_answers); reflexivity. Defined.

(** ** The movement verdict on all inputs *)

Section Verdict.

Import ScrollHelper.

Open Scope Q_scope.

Variable a : Axis.

Inductive moves (avg : Q) : string -> Prop :=
| moves_positive : 1 < avg -> moves avg (positive a)
| moves_negative : avg < -(1) -> moves avg (negative a)
| moves_not : -(1) <= avg <= 1 -> moves avg "STATIONARY".

Lemma direction_of_moves (avg : Q) : moves avg (direction_of a avg).
Proof.
  destruct (Qlt_le_dec 1 avg) as [Hp | Hp].
  - rewrite direction_of_positive by exact Hp; now constructor.
  - destruct (Qlt_le_dec avg (-(1))) as [Hn | Hn].
    + rewrite direction_of_negative by exact Hn; now constructor.
    + rewrite direction_of_stationary by (split; assumption); now constructor.
Qed.

Lemma track_results_two (count : nat) (i0 i1 f0 f1 : Positions)
  (more more' : list Positions) :
  (2 <= count)%nat ->
  exists rest,
    track_results a count (i0 :: i1 :: more) (f0 :: f1 :: more') =
    mkTrackResult 0 (average_shift i0 f0) (direction_of a (average_shift i0 f0)) ::
    mkTrackResult 1 (average_shift i1 f1) (direction_of a (average_shift i1 f1)) ::
    rest.
Proof.
  intros H; destruct count as [| [| n]]; [lia | lia |].
  unfold track_results; cbn [seq flat_map nth_error app].
  eexists; reflexivity.
Qed.

(** The first two tracks move against each other. *)
Definition opposite (x y : Q) : Prop :=
  (x < -(1) /\ 1 < y) \/ (1 < x /\ y < -(1)).

Lemma status_of_pair_moves (cross : bool) (x y : Q) (dir1 dir2 : string) :
  moves x dir1 -> moves y dir2 ->
  (status_of_pair a cross dir1 dir2 = "PASS"%string <-> (cross = true <-> opposite x y)) /\
  (status_of_pair a cross dir1 dir2 = "FAIL"%string <-> ~ (cross = true <-> opposite x y)).
Proof.
  intros [Hx | Hx | Hx] [Hy | Hy | Hy]; unfold status_of_pair, opposite;
    destruct a, cross; cbn;
    (split; split; intros H; first
       [ reflexivity | discriminate H
       | intuition (try discriminate; try lra)
       | exfalso; apply H; intuition (try discriminate; try lra) ]).
Qed.

End Verdict.

(** X9.  The full verdict for two or more tracks, on either axis, when both
    samples hold the first two tracks: the status is PASS exactly when the
    cross-scroll setting agrees with what the first two tracks do (set and
    moving against each other, or not set and not moving against each
    other), and FAIL otherwise.  In particular two tracks that stand still
    pass when cross-scrolling is off. *)
Theorem two_tracks_verdict (a : Axis) (config : ScrollHelper.Config) (count : nat)
  (i0 i1 f0 f1 : Positions) (more more' : list Positions) :
  (2 <= count)%nat ->
  let x := average_shift i0 f0 in
  let y := average_shift i1 f1 in
  let s := ScrollHelper.status (interact a config count (i0 :: i1 :: more) (f0 :: f1 :: more')) in
  (s = "PASS" <-> (crossScrollingEnabled a config = true <-> opposite x y)) /\
  (s = "FAIL" <-> ~ (crossScrollingEnabled a config = true <-> opposite x y)).
Proof.
  intros Hc x y s.
  destruct (track_results_two a count i0 i1 f0 f1 more more' Hc) as [rest E].
  unfold s.
  rewrite (interact_status_of_pair a config count _ _
             (direction_of a x) (direction_of a y) Hc)
    by (rewrite E; reflexivity).
  apply status_of_pair_moves; apply direction_of_moves.
Qed.

Definition at_100_200_still : Positions := [Some (1001 # 10); Some (200 # 1)].

Lemma two_tracks_verdict_witness :
  ScrollHelper.status (HorizontalScrollHelper.interact no_cross 2
            [at_100_200; at_100_200] [at_100_200_still; at_100_200]) = "PASS".
Proof.
  apply (proj1 (two_tracks_verdict Horizontal no_cross 2
                  at_100_200 at_100_200 at_100_200_still at_100_200 [] []
                  ltac:(lia))).
  split; [discriminate |].
  unfold opposite; intros [[H _] | [H _]]; vm_compute in H; discriminate H.
Defined.

Section Tracks.

Import ScrollHelper.

Open Scope Q_scope.

Variable a : Axis.

Lemma status_of_pair_range (cross : bool) (dir1 dir2 : string) :
  status_of_pair a cross dir1 dir2 = "PASS"%string \/
  status_of_pair a cross dir1 dir2 = "FAIL"%string.
Proof.
  unfold status_of_pair; destruct cross;
    match goal with |- context [if ?b then _ else _] => destruct b end; auto.
Qed.

(** Past an index that one of the samples lacks, no track is reported. *)
Lemma track_results_past (initialStates finalStates : list Positions) (n start : nat) :
  (List.length initialStates <= start \/ List.length finalStates <= start)%nat ->
  flat_map
    (fun i =>
       match nth_error initialStates i, nth_error finalStates i with
       | Some initial, Some final =>
           let avg := average_shift initial final in
           [mkTrackResult i avg (direction_of a avg)]
       | _, _ => []
       end)
    (seq start n) = [].
Proof.
  revert start; induction n as [| n IH]; intros start H; [reflexivity |].
  cbn [seq flat_map]; rewrite IH by lia.
  destruct H as [H | H].
  - rewrite (proj2 (nth_error_None initialStates start) H); reflexivity.
  - rewrite (proj2 (nth_error_None finalStates start) H).
    destruct (nth_error initialStates start); reflexivity.
Qed.

Lemma track_results_short (count : nat) (initialStates finalStates : list Positions) :
  (List.length initialStates < 2 \/ List.length finalStates < 2)%nat ->
  direction_at (track_results a count initialStates finalStates) 1 = Throw undefined_direction.
Proof.
  intros H; unfold track_results; destruct count as [| n]; [reflexivity |].
  cbn [seq flat_map]; rewrite track_results_past by lia.
  destruct (nth_error initialStates 0), (nth_error finalStates 0); reflexivity.
Qed.

Lemma interact_status_range (config : Config) (count : nat)
  (initialStates finalStates : list Positions) :
  let s := status (interact a config count initialStates finalStates) in
  (count = 0%nat /\ s = "UNKNOWN"%string) \/
  (count = 1%nat /\ (s = "PASS"%string \/ s = "FAIL"%string)) \/
  ((2 <= count)%nat /\
   ((List.length initialStates < 2 \/ List.length finalStates < 2)%nat /\ s = "ERROR"%string \/
    (2 <= List.length initialStates /\ 2 <= List.length finalStates)%nat /\
    (s = "PASS"%string \/ s = "FAIL"%string))).
Proof.
  intros s; unfold s; destruct count as [| [| n]].
  - left; split; reflexivity.
  - right; left; split; [reflexivity |].
    unfold interact, analyse; cbn [Nat.eqb Nat.leb].
    destruct (nth_error _ 0) as [col |]; [| now left].
    destruct (String.eqb (direction col) "STATIONARY"); [now right | now left].
  - right; right; split; [lia |].
    rewrite interact_status by lia; cbv zeta.
    destruct (Nat.lt_ge_cases (List.length initialStates) 2) as [Hi | Hi];
      [| destruct (Nat.lt_ge_cases (List.length finalStates) 2) as [Hf | Hf]].
    + left; split; [now left |].
      rewrite track_results_short by now left.
      destruct (direction_at _ 0); reflexivity.
    + left; split; [now right |].
      rewrite track_results_short by now right.
      destruct (direction_at _ 0); reflexivity.
    + right; split; [split; assumption |].
      destruct initialStates as [| i0 [| i1 more]]; try (simpl in Hi; lia).
      destruct finalStates as [| f0 [| f1 more']]; try (simpl in Hf; lia).
      destruct (track_results_two a (S (S n)) i0 i1 f0 f1 more more') as [rest E];
        [lia |].
      rewrite E; cbn [direction_at nth_error direction].
      apply status_of_pair_range.
Qed.

End Tracks.

(** The run reaches the analysis with [count] tracks and the two samples:
    every call made on the way returned.  The search for a single container
    is made only when no track matched, the positions are read only for a
    positive count. *)
Definition sampled (page : Page) (count : nat)
  (initialStates finalStates : list Positions) : Prop :=
  mouse_move page = Ret tt /\
  scroll_by page 0 = Ret tt /\
  waitForTimeout page 0 = Ret tt /\
  scroll_by page 1 = Ret tt /\
  (exists matching,
      matching_tracks page = Ret matching /\
      (matching <> 0 /\ count = matching \/
       matching = 0 /\
       exists taken, fallback_track page = Ret taken /\
                     count = if taken then 1 else 0)) /\
  waitForTimeout page 1 = Ret tt /\
  waitForTimeout page 2 = Ret tt /\
  (count = 0 /\ initialStates = [] /\ finalStates = [] \/
   count <> 0 /\
   getPositions page 0 = Ret initialStates /\
   (exists midStates, getPositions page 1 = Ret midStates) /\
   getPositions page 2 = Ret finalStates).

Lemma sample_sampled (page : Page) (count : nat)
  (initialStates finalStates : list Positions) :
  sample page = Ret (count, initialStates, finalStates) <->
  sampled page count initialStates finalStates.
Proof.
  unfold sample, sampled.
  destruct (mouse_move page) as [[] | e]; cbn [bind];
    [| split; [discriminate | intros [H _]; discriminate]].
  destruct (scroll_by page 0) as [[] | e]; cbn [bind];
    [| split; [discriminate | intros (_ & H & _); discriminate]].
  destruct (waitForTimeout page 0) as [[] | e]; cbn [bind];
    [| split; [discriminate | intros (_ & _ & H & _); discriminate]].
  destruct (scroll_by page 1) as [[] | e]; cbn [bind];
    [| split; [discriminate | intros (_ & _ & _ & H & _); discriminate]].
  destruct (matching_tracks page) as [matching | e]; cbn [bind];
    [| split; [discriminate | intros (_ & _ & _ & _ & (m & H & _) & _); discriminate]].
  assert (Hcount : forall c : nat,
    (c = 0 /\ (waitForTimeout page 1 = Ret tt /\ waitForTimeout page 2 = Ret tt /\
               initialStates = [] /\ finalStates = []) \/
     c <> 0 /\ (waitForTimeout page 1 = Ret tt /\ waitForTimeout page 2 = Ret tt /\
                getPositions page 0 = Ret initialStates /\
                (exists midStates, getPositions page 1 = Ret midStates) /\
                getPositions page 2 = Ret finalStates)) <->
    bind (if 0 <? c then getPositions page 0 else Ret []) (fun initialStates0 =>
    bind (waitForTimeout page 1) (fun _ =>
    bind (if 0 <? c then getPositions page 1 else Ret []) (fun _ =>
    bind (waitForTimeout page 2) (fun _ =>
    bind (if 0 <? c then getPositions page 2 else Ret []) (fun finalStates0 =>
      Ret (c, initialStates0, finalStates0)))))) =
    Ret (c, initialStates, finalStates)).
  { intros [| c]; cbn [Nat.ltb Nat.leb].
    - cbn [bind].
      destruct (waitForTimeout page 1) as [[] | e]; cbn [bind];
        [| split; [intros [(_ & H & _) | [H _]]; [discriminate | congruence] | discriminate]].
      destruct (waitForTimeout page 2) as [[] | e]; cbn [bind];
        [| split; [intros [(_ & _ & H & _) | [H _]]; [discriminate | congruence] | discriminate]].
      split.
      + intros [(_ & _ & _ & -> & ->) | [H _]]; [reflexivity | congruence].
      + intros [= <- <-]; left; auto.
    - destruct (getPositions page 0) as [i | e]; cbn [bind];
        [| split; [intros [[H _] | (_ & _ & _ & H & _)]; discriminate | discriminate]].
      destruct (waitForTimeout page 1) as [[] | e]; cbn [bind];
        [| split; [intros [[H _] | (_ & H & _)]; discriminate | discriminate]].
      destruct (getPositions page 1) as [m | e]; cbn [bind];
        [| split; [intros [[H _] | (_ & _ & _ & _ & [m H] & _)]; discriminate | discriminate]].
      destruct (waitForTimeout page 2) as [[] | e]; cbn [bind];
        [| split; [intros [[H _] | (_ & _ & H & _)]; discriminate | discriminate]].
      destruct (getPositions page 2) as [f | e]; cbn [bind];
        [| split; [intros [[H _] | (_ & _ & _ & _ & _ & H)]; discriminate | discriminate]].
      split.
      + intros [[H _] | (_ & _ & _ & [= ->] & _ & [= ->])]; [discriminate | reflexivity].
      + intros [= <- <-]; right; split; [discriminate |]; eauto 10. }
  destruct matching as [| n]; cbn [Nat.eqb].
  - destruct (fallback_track page) as [taken | e]; cbn [bind].
    + split.
      * intros H.
        assert (E : count = if taken then 1 else 0)
          by (destruct taken; cbn in H;
              repeat match type of H with
                | context [bind ?m _] => destruct m; cbn [bind] in H; try discriminate
                end; congruence).
        subst count; apply Hcount in H.
        destruct H as [(Hc & Hw1 & Hw2 & Hp) | (Hc & Hw1 & Hw2 & Hp)];
          (do 4 (split; [reflexivity |]));
          (split; [exists 0; split; [reflexivity | right; split; [reflexivity | eauto]] |]);
          (split; [exact Hw1 |]); (split; [exact Hw2 |]); [left; auto | right; auto].
      * intros (_ & _ & _ & _ & (m & Em & Hm) & Hw1 & Hw2 & Hp).
        injection Em as <-; destruct Hm as [[Hm _] | (_ & t & Et & ->)]; [congruence |].
        injection Et as <-; apply Hcount; tauto.
    + split; [discriminate |].
      intros (_ & _ & _ & _ & (m & Em & Hm) & _).
      injection Em as <-; destruct Hm as [[Hm _] | (_ & t & Et & _)];
        [congruence | discriminate].
  - cbn [bind]; split.
    + intros H.
      assert (E : count = S n)
        by (cbn in H;
            repeat match type of H with
              | context [bind ?m _] => destruct m; cbn [bind] in H; try discriminate
              end; congruence).
      subst count; apply Hcount in H.
      destruct H as [(Hc & Hw1 & Hw2 & Hp) | (Hc & Hw1 & Hw2 & Hp)];
        (do 4 (split; [reflexivity |]));
        (split; [exists (S n); split; [reflexivity | left; split; [discriminate | reflexivity]] |]);
        (split; [exact Hw1 |]); (split; [exact Hw2 |]); [left; auto | right; auto].
    + intros (_ & _ & _ & _ & (m & Em & Hm) & Hw1 & Hw2 & Hp).
      injection Em as <-; destruct Hm as [[_ ->] | [Hm _]]; [| discriminate].
      apply Hcount; tauto.
Qed.

Lemma interact_page_sample (a : Axis) (config : ScrollHelper.Config) (page : Page) :
  interact_page a config page =
  match sample page with
  | Ret (count, initialStates, finalStates) =>
      interact a config count initialStates finalStates
  | Throw e => mkVerdict "ERROR" (JS.message e) None
  end.
Proof.
  unfold interact_page, interact; destruct (sample page) as [[[count i] f] | e];
    reflexivity.
Qed.

(** X10.  The status of [interact] over a whole run.  It is PASS, FAIL,
    ERROR or UNKNOWN.  When every call before the analysis returns, the
    verdict is that of the analysis of the count and of the first and third
    sample; the status is UNKNOWN exactly when the run reaches the analysis
    with no track, and ERROR exactly when a call before the analysis threw
    or the run reaches the analysis with two or more tracks counted and
    fewer than two in the first or in the third sample. *)
Theorem interact_status_cases (a : Axis) (config : ScrollHelper.Config) (page : Page) :
  let v := interact_page a config page in
  let s := ScrollHelper.status v in
  (s = "PASS" \/ s = "FAIL" \/ s = "ERROR" \/ s = "UNKNOWN") /\
  (forall count initialStates finalStates,
      sampled page count initialStates finalStates ->
      v = interact a config count initialStates finalStates) /\
  (s = "UNKNOWN" <-> sampled page 0 [] []) /\
  (s = "ERROR" <->
   (forall count initialStates finalStates,
       ~ sampled page count initialStates finalStates) \/
   (exists count initialStates finalStates,
       sampled page count initialStates finalStates /\
       2 <= count /\
       (List.length initialStates < 2 \/ List.length finalStates < 2))).
Proof.
  intros v s; unfold s, v; rewrite interact_page_sample.
  destruct (sample page) as [[[count i] f] | e] eqn:E.
  - assert (Hone : forall c' i' f',
               sampled page c' i' f' -> c' = count /\ i' = i /\ f' = f).
    { intros c' i' f' H; apply sample_sampled in H; rewrite E in H.
      injection H as <- <- <-; auto. }
    pose proof (proj1 (sample_sampled page count i f) E) as Hs.
    pose proof (interact_status_range a config count i f) as R; cbv zeta in R.
    split; [| split; [| split]].
    + destruct R as [[_ ->] | [[_ [-> | ->]] | [_ [[_ ->] | [_ [-> | ->]]]]]]; tauto.
    + intros c' i' f' H; destruct (Hone c' i' f' H) as (-> & -> & ->); reflexivity.
    + split.
      * intros U.
        assert (Hc : count = 0).
        { destruct R as [[Hc _] | [[_ [H | H]] | [_ [[_ H] | [_ [H | H]]]]]];
            [exact Hc | rewrite H in U; discriminate ..]. }
        subst count.
        destruct Hs as (_ & _ & _ & _ & _ & _ & _ & [(_ & Hi & Hf) | [Hn _]]);
          [| congruence].
        apply sample_sampled; rewrite E, Hi, Hf; reflexivity.
      * intros H; destruct (Hone _ _ _ H) as (<- & _ & _).
        destruct R as [[_ H0] | [[Hc _] | [Hc _]]]; [exact H0 | discriminate | lia].
    + split.
      * intros U; right; exists count, i, f; split; [exact Hs |].
        destruct R as [[_ H] | [[_ [H | H]] | [Hc [[Hl _] | [_ [H | H]]]]]];
          try (rewrite H in U; discriminate).
        split; assumption.
      * intros [H | (c' & i' & f' & H & Hc & Hl)]; [destruct (H _ _ _ Hs) |].
        destruct (Hone _ _ _ H) as (-> & -> & ->).
        destruct R as [[Hc0 _] | [[Hc1 _] | [_ [[_ H0] | [Hl' _]]]]];
          [lia | lia | exact H0 | lia].
  - assert (Hnone : forall c' i' f', ~ sampled page c' i' f').
    { intros c' i' f' H; apply sample_sampled in H; congruence. }
    cbn [ScrollHelper.status]; split; [| split; [| split]].
    + tauto.
    + intros c' i' f' H; destruct (Hnone _ _ _ H).
    + split; [discriminate | intros H; destruct (Hnone _ _ _ H)].
    + split; [intros _; left; exact Hnone | reflexivity].
Qed.

Definition target_closed : Error :=
  mkError "Error" "locator.boundingBox: Target page, context or browser has been closed" None.

(** Two tracks are found and sampled twice; the page goes away before the
    third sample. *)
Definition closing_page : Page :=
  mkPage (Ret tt) (fun _ => Ret tt) (fun _ => Ret tt) (Ret 2) (Ret false)
    (fun k => if k <? 2 then Ret [at_100_200; at_100_200] else Throw target_closed).

Lemma interact_status_cases_witness :
  ScrollHelper.status (interact_page Vertical no_cross closing_page) = "ERROR" /\
  ~ sampled closing_page 0 [] [].
Proof.
  destruct (interact_status_cases Vertical no_cross closing_page) as (_ & _ & H0 & H).
  assert (Hnone : forall count initialStates finalStates,
             ~ sampled closing_page count initialStates finalStates).
  { intros count i f (_ & _ & _ & _ & (m & Em & Hm) & _ & _ & Hp).
    injection Em as <-.
    destruct Hm as [[_ ->] | [Hm _]]; [| discriminate].
    destruct Hp as [[Hc _] | (_ & _ & _ & Hf)]; discriminate. }
  split; [apply H; left; exact Hnone | apply Hnone].
Defined.

(** X11.  One track, on either axis, sampled at both ends: FAIL exactly
    when its average shift lies within one pixel of zero, bounds included,
    PASS exactly beyond; a track without a child seen in both samples has
    shift 0 and fails.  When a counted track is missing from a sample, the
    status is PASS. *)
Theorem single_track_verdict (a : Axis) (config : ScrollHelper.Config) :
  (forall (i f : Positions) (more more' : list Positions),
      let x := average_shift i f in
      let s := ScrollHelper.status (interact a config 1 (i :: more) (f :: more')) in
      (s = "FAIL" <-> (-(1) <= x <= 1)%Q) /\
      (s = "PASS" <-> (x < -(1) \/ 1 < x)%Q)) /\
  (forall f, ScrollHelper.status (interact a config 1 [[]] [f]) = "FAIL") /\
  (forall finalStates, ScrollHelper.status (interact a config 1 [] finalStates) = "PASS") /\
  (forall initialStates, ScrollHelper.status (interact a config 1 initialStates []) = "PASS").
Proof.
  split; [| split; [| split]].
  - intros i f more more' x s; unfold s, interact, analyse.
    cbn [Nat.eqb Nat.leb track_results seq flat_map nth_error app direction].
    fold x; destruct (direction_of_moves a x) as [H | H | H];
      destruct a; cbn; (split; split; intros E; first
        [ reflexivity | discriminate E | lra | (right; lra) | (left; lra)
        | (exfalso; destruct E; lra) ]).
  - intros f; destruct a; reflexivity.
  - intros finalStates; reflexivity.
  - intros initialStates; unfold interact, analyse.
    cbn [Nat.eqb Nat.leb track_results seq flat_map app].
    destruct (nth_error initialStates 0); reflexivity.
Qed.

(** ** The analysis call, attempt by attempt *)

Section Attempts.

Import AIEngine.

Variable engine : Engine.
Variables staticFeatures configFeatures : option (list Feature).

(** A run of rate-limited attempts below the ceiling is stepped over, one
    pause each. *)
Lemma attempt_loop_retries (replies : nat -> Reply) (n : nat) :
  forall remaining attempts slept,
    attempts + n <= maxRetries engine ->
    (forall j, attempts < j <= attempts + n -> rate_limited replies j) ->
    attempt_loop engine replies staticFeatures configFeatures (n + remaining) attempts slept =
    attempt_loop engine replies staticFeatures configFeatures remaining (attempts + n)
      (slept ++ map (retry_delay engine) (seq (S attempts) n))%list.
Proof.
  induction n as [| n IH]; intros remaining attempts slept Hm Hr.
  - now rewrite Nat.add_0_r, app_nil_r.
  - destruct (Hr (S attempts)) as [e [R L]]; [lia |].
    cbn [Nat.add]; rewrite (attempt_loop_retry engine replies _ _ _ _ _ e R L) by lia.
    rewrite IH by (try lia; intros j Hj; apply Hr; lia).
    cbn [seq map]; rewrite <- app_assoc, Nat.add_succ_r; reflexivity.
Qed.

(** The loop reads the replies of the attempts it can still make, and no
    other. *)
Lemma attempt_loop_replies (replies replies' : nat -> Reply) (remaining : nat) :
  forall attempts slept,
    (forall k, attempts < k <= attempts + remaining -> replies k = replies' k) ->
    attempt_loop engine replies staticFeatures configFeatures remaining attempts slept =
    attempt_loop engine replies' staticFeatures configFeatures remaining attempts slept.
Proof.
  induction remaining as [| remaining IH]; intros attempts slept H; [reflexivity |].
  cbn [attempt_loop]; rewrite <- (H (S attempts)) by lia.
  destruct (replies (S attempts)) as [d | e]; [reflexivity |].
  destruct (isRateLimit e && (S attempts <=? maxRetries engine))%bool; [| reflexivity].
  apply IH; intros k Hk; apply H; lia.
Qed.

End Attempts.

Lemma key_set (key : string) (replies : nat -> Reply)
  (staticFeatures configFeatures : option (list Feature)) :
  key <> "" ->
  analyzeScreenshot (AIEngine.new (Some key)) replies staticFeatures configFeatures =
  attempt_loop (AIEngine.new (Some key)) replies staticFeatures configFeatures 6 0 [].
Proof.
  intros H; unfold analyzeScreenshot, AIEngine.new; cbn [apiKey maxRetries].
  destruct (String.eqb_spec key ""); [contradiction | reflexivity].
Qed.

(** X13.  With an API key, when the first [k - 1] attempts are rate limited
    and attempt [k], one of the six the loop makes, is answered, the run
    returns the processed answer after pausing 5000 * (2^(k-1) - 1) ms in
    all. *)
Theorem analyzeScreenshot_answered (key : string) (replies : nat -> Reply)
  (staticFeatures configFeatures : option (list Feature))
  (k : nat) (aiData : option Analysis) :
  key <> "" ->
  1 <= k <= 6 ->
  (forall j, 1 <= j < k -> rate_limited replies j) ->
  replies k = Parsed aiData ->
  let run := analyzeScreenshot (AIEngine.new (Some key)) replies staticFeatures configFeatures in
  returned run = Ret (processResults aiData) /\
  List.length (waited run) = k - 1 /\
  total_waited run = (5000 * (2 ^ Z.of_nat (k - 1) - 1))%Z.
Proof.
  intros Hkey Hk Hr Hp run; unfold run; rewrite key_set by exact Hkey.
  destruct k as [| k]; [lia |].
  replace 6 with (k + S (5 - k)) by lia.
  rewrite attempt_loop_retries
    by (cbn [maxRetries AIEngine.new]; try lia; intros j Hj; apply Hr; lia).
  rewrite (attempt_loop_parsed _ replies _ _ _ _ _ aiData) by exact Hp.
  cbn [returned waited app]; split; [reflexivity |].
  assert (Hk6 : k = 0 \/ k = 1 \/ k = 2 \/ k = 3 \/ k = 4 \/ k = 5) by lia.
  repeat (destruct Hk6 as [-> | Hk6]; [split; reflexivity |]).
  subst; split; reflexivity.
Qed.

Definition fourth_time_lucky (k : nat) : Reply :=
  if k <=? 3 then Failed too_many_requests else Parsed (Some passing_reply).

Lemma analyzeScreenshot_answered_witness :
  let run := analyzeScreenshot (AIEngine.new (Some "key")) fourth_time_lucky None None in
  returned run = Ret (processResults (Some passing_reply)) /\
  List.length (waited run) = 3 /\
  total_waited run = 35000%Z.
Proof.
  apply (analyzeScreenshot_answered "key" fourth_time_lucky None None 4
           (Some passing_reply)).
  - discriminate.
  - lia.
  - intros j Hj; exists too_many_requests; split; [| reflexivity].
    assert (j = 1 \/ j = 2 \/ j = 3) as [-> | [-> | ->]] by lia; reflexivity.
  - reflexivity.
Defined.

(** X14.  A run makes at most six attempts and pauses at most 155 s: two
    environments that agree on the replies to attempts 1 to 6 give the same
    run, and the pauses never add up to more than 155000 ms. *)
Theorem analyzeScreenshot_bounded (key : option string) (replies : nat -> Reply)
  (staticFeatures configFeatures : option (list Feature)) :
  (forall replies' : nat -> Reply,
      (forall k, 1 <= k <= 6 -> replies k = replies' k) ->
      analyzeScreenshot (AIEngine.new key) replies staticFeatures configFeatures =
      analyzeScreenshot (AIEngine.new key) replies' staticFeatures configFeatures) /\
  (0 <= total_waited
          (analyzeScreenshot (AIEngine.new key) replies staticFeatures configFeatures)
     <= 155000)%Z.
Proof.
  split.
  - intros replies' H; unfold analyzeScreenshot, AIEngine.new; cbn [apiKey maxRetries].
    destruct key as [key |]; [| reflexivity].
    destruct (String.eqb key ""); [reflexivity |].
    apply attempt_loop_replies; intros k Hk; apply H; lia.
  - unfold analyzeScreenshot; cbn [AIEngine.new apiKey].
    destruct key as [key |]; [| cbn; lia].
    destruct (String.eqb key ""); [cbn; lia |].
    destruct (attempt_loop_waited (AIEngine.new (Some key)) replies
                staticFeatures configFeatures 5 0 [] eq_refl)
      as [n [Hn [Hw _]]].
    cbn [maxRetries AIEngine.new Nat.add] in Hn, Hw.
    unfold total_waited; cbn [maxRetries AIEngine.new]; rewrite Hw.
    assert (Hn6 : n = 0 \/ n = 1 \/ n = 2 \/ n = 3 \/ n = 4 \/ n = 5) by lia.
    repeat (destruct Hn6 as [-> | Hn6]; [cbn; lia |]).
    subst; cbn; lia.
Qed.

(** As [third_time_lucky] up to the sixth attempt, a failure from the
    seventh on. *)
Definition lucky_until_sixth (k : nat) : Reply :=
  if k <=? 2 then Failed too_many_requests
  else if k <=? 6 then Parsed (Some passing_reply)
  else Failed fetch_failed.

Lemma analyzeScreenshot_bounded_witness :
  analyzeScreenshot (AIEngine.new (Some "key")) third_time_lucky None None =
  analyzeScreenshot (AIEngine.new (Some "key")) lucky_until_sixth None None.
Proof.
  apply (proj1 (analyzeScreenshot_bounded (Some "key") third_time_lucky None None)).
  intros k Hk.
  assert (k = 1 \/ k = 2 \/ k = 3 \/ k = 4 \/ k = 5 \/ k = 6)
    as [-> | [-> | [-> | [-> | [-> | ->]]]]] by lia; reflexivity.
Defined.

(** ** Navigation *)

(** X15.  [init] visits the page at most three times and stops at the first
    visit that loads: every earlier visit failed and was followed by a 5 s
    pause, and a loaded page whose embed script answered adds the 2 s render
    pause.  When all three visits fail, the error of the third is thrown
    after two pauses.  The expected type is what [identify] makes of the
    type id and the detected type starts as 'Unknown', however the
    navigation ends. *)
Theorem init_navigation (goto : nat -> outcome unit) (script_seen : nat -> bool)
  (widgetTypeId : value) :
  let r := init goto script_seen widgetTypeId in
  expected_type r = identify (Some (WidgetDetector.mkConfig VUndefined widgetTypeId)) /\
  widget_type r = "Unknown" /\
  1 <= visits r <= 3 /\
  (forall j, 1 <= j < visits r -> exists e, goto j = Throw e) /\
  ((goto (visits r) = Ret tt /\
    navigated r = Ret tt /\
    pauses r = (repeat 5000%Z (visits r - 1) ++
                if script_seen (visits r) then [2000%Z] else [])%list) \/
   (visits r = 3 /\
    exists e, goto 3 = Throw e /\ navigated r = Throw e /\ pauses r = [5000; 5000]%Z)).
Proof.
  intros r; unfold r, init, maxAttempts; cbn [navigate].
  destruct (goto 1) as [[] | e1] eqn:G1; cbn.
  { repeat split; [lia | lia | intros j Hj; lia | left; auto]. }
  destruct (goto 2) as [[] | e2] eqn:G2; cbn.
  { repeat split; [lia | lia | | left; auto].
    intros j Hj; assert (j = 1) as -> by lia; eauto. }
  assert (before : forall j, 1 <= j < 3 -> exists e, goto j = Throw e).
  { intros j Hj; assert (j = 1 \/ j = 2) as [-> | ->] by lia; eauto. }
  destruct (goto 3) as [[] | e3] eqn:G3; cbn.
  - repeat split; [lia | lia | exact before | left; auto].
  - repeat split; [lia | lia | exact before | right; split; [reflexivity |]].
    exists e3; auto.
Qed.

(** ** The result handed to the report *)

Section Finalize.

Import PlaywrightHelper.

Variable w : World.
Variable staticFeatures : option (list Feature).

(** With the disk and the analysis call going through, [_finalizeAnalysis]
    returns the fields of [this] and the analysis with the two rows
    added. *)
Lemma finalize_result (h : Helper) (buffers : list (option Capture))
  (ai : option Analysis) :
  disk_ok w ->
  returned (analyzeScreenshot (aiEngine h) (replies w) staticFeatures
              (features (config h))) = Ret ai ->
  exists paths,
    save w h (join (cwd w) "screenshots") (List.length buffers) 0 buffers = Ret paths /\
    result (_finalizeAnalysis w h buffers staticFeatures) =
    Ret (mkResult (expectedType h) (widgetType h) (typeMatchResult h) (config h)
           (add_type_match h (add_movement h ai)) (movementVerification h)
           (hd_error paths) paths).
Proof.
  intros [Hdir Hw] Hai; unfold _finalizeAnalysis.
  assert (Hd : (if directory_exists w then Ret tt else mkdir w) = Ret tt)
    by (destruct Hdir as [-> | E]; [reflexivity | destruct (directory_exists w); auto]).
  rewrite Hd.
  destruct (save_returns w h (join (cwd w) "screenshots") (List.length buffers)
              buffers Hw 0) as [paths E].
  exists paths; rewrite E, Hai; split; reflexivity.
Qed.

End Finalize.

Definition movement_feature (f : FeatureResult) : Prop :=
  feature f = "Cross Scroll Animation" \/ feature f = "Horizontal Scrolling Animation".

(** X16.  How [_finalizeAnalysis] merges the verdicts into an analysis that
    has feature rows: the rows of the analysis are kept in order, behind one
    'Widget Type Identification' row when a type comparison was recorded
    and before one movement row when a movement verdict was recorded.  The
    overall status becomes FAIL when the types did not match or the movement
    status is FAIL or ERROR, and is left as the analysis had it otherwise:
    a movement status UNKNOWN adds a FAIL row without touching the overall
    status. *)
Theorem finalize_rows (h : Helper) (a : Analysis) (rows : list FeatureResult) :
  feature_results a = Some rows ->
  exists merged front back,
    add_type_match h (add_movement h (Some a)) = Some merged /\
    feature_results merged = Some (front ++ rows ++ back)%list /\
    List.length front = match typeMatchResult h with Some _ => 1 | None => 0 end /\
    List.length back = match movementVerification h with Some _ => 1 | None => 0 end /\
    Forall (fun f => feature f = "Widget Type Identification") front /\
    Forall movement_feature back /\
    Forall (fun f => AIEngine.status f = "FAIL" \/
                     exists mv, movementVerification h = Some mv /\
                                ScrollHelper.status mv <> "UNKNOWN" /\
                                AIEngine.status f = ScrollHelper.status mv) back /\
    overall_status merged =
      (if match typeMatchResult h with Some tm => negb (matched tm) | None => false end
       then Some "FAIL"
       else if match movementVerification h with
               | Some mv => (String.eqb (ScrollHelper.status mv) "FAIL" ||
                             String.eqb (ScrollHelper.status mv) "ERROR")%bool
               | None => false
               end
            then Some "FAIL"
            else overall_status a).
Proof.
  intros Hrows; unfold add_type_match, add_movement.
  assert (movement_row : forall mv (b : bool) f,
             f = mkFeatureResult
                   (if b then "Cross Scroll Animation" else "Horizontal Scrolling Animation")
                   (if String.eqb (ScrollHelper.status mv) "PASS" then "Visible" else "Absent")
                   "Visible" (ScrollHelper.message mv)
                   (if (String.eqb (ScrollHelper.status mv) "ERROR" ||
                        String.eqb (ScrollHelper.status mv) "UNKNOWN")%bool
                    then "FAIL" else ScrollHelper.status mv) None ->
             movement_feature f /\
             (AIEngine.status f = "FAIL" \/
              ScrollHelper.status mv <> "UNKNOWN" /\
              AIEngine.status f = ScrollHelper.status mv)).
  { intros mv b f ->; unfold movement_feature; cbn; split; [destruct b; auto |].
    destruct (String.eqb_spec (ScrollHelper.status mv) "UNKNOWN") as [-> | Hne];
      [now left |].
    rewrite orb_false_r.
    destruct (String.eqb (ScrollHelper.status mv) "ERROR"); auto. }
  destruct (movementVerification h) as [mv |], (typeMatchResult h) as [tm |];
    cbn [feature_results with_features]; rewrite ?Hrows;
    cbn [feature_results with_features].
  - match goal with
    | |- exists m f b, Some ?x = Some m /\ _ => exists x
    end.
    match goal with
    | |- exists f b, _ /\ feature_results (with_features _ (?r :: (_ ++ [?m])%list) _) = _ /\ _ =>
        exists [r], [m]; destruct (movement_row mv _ m eq_refl) as [Hf Hs]
    end.
    split; [reflexivity |]; split; [reflexivity |].
    split; [reflexivity |]; split; [reflexivity |].
    split; [repeat constructor |].
    split; [constructor; [exact Hf | constructor] |].
    split; [constructor; [| constructor]; destruct Hs as [Hs | [Hu Hs]]; eauto |].
    cbn; destruct (matched tm); cbn; [| reflexivity].
    destruct (String.eqb (ScrollHelper.status mv) "FAIL" ||
              String.eqb (ScrollHelper.status mv) "ERROR")%bool; reflexivity.
  - match goal with
    | |- exists m f b, Some ?x = Some m /\ _ => exists x
    end.
    match goal with
    | |- exists f b, _ /\ feature_results (with_features _ (_ ++ [?m])%list _) = _ /\ _ =>
        exists [], [m]; destruct (movement_row mv _ m eq_refl) as [Hf Hs]
    end.
    split; [reflexivity |]; split; [reflexivity |].
    split; [reflexivity |]; split; [reflexivity |].
    split; [constructor |].
    split; [constructor; [exact Hf | constructor] |].
    split; [constructor; [| constructor]; destruct Hs as [Hs | [Hu Hs]]; eauto |].
    cbn.
    destruct (String.eqb (ScrollHelper.status mv) "FAIL" ||
              String.eqb (ScrollHelper.status mv) "ERROR")%bool; reflexivity.
  - match goal with
    | |- exists m f b, Some ?x = Some m /\ _ => exists x
    end.
    match goal with
    | |- exists f b, _ /\ feature_results (with_features _ (?r :: _) _) = _ /\ _ =>
        exists [r], []
    end.
    rewrite app_nil_r.
    split; [reflexivity |]; split; [reflexivity |].
    split; [reflexivity |]; split; [reflexivity |].
    split; [repeat constructor |].
    split; [constructor |]; split; [constructor |].
    cbn; destruct (matched tm); reflexivity.
  - exists a, [], []; rewrite app_nil_r; cbn [app].
    split; [reflexivity |]; split; [exact Hrows |].
    split; [reflexivity |]; split; [reflexivity |].
    repeat (split; [constructor |]); reflexivity.
Qed.

(** A helper whose types matched and whose movement tracking found no
    track. *)
Definition stalled_helper : Helper :=
  mkHelper (AIEngine.new None) (PlaywrightHelper.mkConfig None no_cross)
    "MARQUEE_UPDOWN" "MARQUEE_UPDOWN"
    (Some (mkTypeMatch "MARQUEE_UPDOWN" "MARQUEE_UPDOWN" true
             "Widget type on page matches config"))
    None
    (Some (ScrollHelper.mkVerdict "UNKNOWN"
             "No columns identified for programmatic tracking." None)).

Definition passed_analysis : Analysis :=
  mkAnalysis false None None (Some "PASS") None
    (Some [mkFeatureResult "Show Review Date" "Visible" "Visible" "Normal" "PASS" None]).

Lemma finalize_rows_witness :
  exists merged back,
    add_type_match stalled_helper (add_movement stalled_helper (Some passed_analysis)) =
      Some merged /\
    List.length back = 1 /\
    Forall (fun f => AIEngine.status f = "FAIL") back /\
    overall_status merged = Some "PASS".
Proof.
  destruct (finalize_rows stalled_helper passed_analysis _ eq_refl)
    as [merged [front [back [E [_ [_ [Hb [_ [_ [Hs Ho]]]]]]]]]].
  exists merged, back; split; [exact E |]; split; [exact Hb |]; split; [| exact Ho].
  eapply Forall_impl; [| exact Hs].
  intros f [H | [mv [[= <-] [Hu _]]]]; [exact H | now elim Hu].
Defined.

(** X17.  A page without widget is reported as failed: when the analysis
    returns feature rows (as the mock analysis always does), the result of
    [validateWithAI] starts with a failed 'Widget Type Identification' row
    that shows 'Widget Not Found', its overall status is FAIL, and FAIL is
    the status the runners record. *)
Theorem widget_not_found_fails (w : World) (h : Helper)
  (staticFeatures : option (list Feature)) (a : Analysis) (rows : list FeatureResult) :
  closed_on_entry w = false ->
  match_count w = Ret 0 ->
  disk_ok w ->
  returned (analyzeScreenshot (aiEngine h) (replies w) staticFeatures
              (features (config h))) = Ret (Some a) ->
  feature_results a = Some rows ->
  exists r merged first rest,
    result (validateWithAI w h staticFeatures) = Ret r /\
    aiAnalysis r = Some merged /\
    feature_results merged = Some (first :: rest) /\
    feature first = "Widget Type Identification" /\
    ui_status first = "Widget Not Found" /\
    AIEngine.status first = "FAIL" /\
    overall_status merged = Some "FAIL" /\
    Runner.record_status r = Ret "FAIL".
Proof.
  intros Hopen Hcount Hdisk Hai Hrows.
  assert (Hfin : forall buffers,
             exists r merged first rest,
               result (_finalizeAnalysis w (not_found h) buffers staticFeatures) = Ret r /\
               aiAnalysis r = Some merged /\
               feature_results merged = Some (first :: rest) /\
               feature first = "Widget Type Identification" /\
               ui_status first = "Widget Not Found" /\
               AIEngine.status first = "FAIL" /\
               overall_status merged = Some "FAIL" /\
               Runner.record_status r = Ret "FAIL").
  { intros buffers.
    destruct (finalize_result w staticFeatures (not_found h) buffers (Some a) Hdisk Hai)
      as [paths [_ ->]].
    unfold add_type_match, add_movement, Runner.record_status.
    cbn [not_found movementVerification typeMatchResult widgetType aiAnalysis].
    destruct (movementVerification h) as [mv |];
      cbn [feature_results with_features]; rewrite Hrows;
      cbn [feature_results with_features matched];
      do 4 eexists; repeat split. }
  unfold validateWithAI; rewrite Hopen, Hcount.
  destruct (closed_before_capture w); [apply Hfin |].
  destruct (page_capture w); [apply Hfin | unfold recover; apply Hfin].
Qed.

(** A helper without API key: the analysis is the mock. *)
Definition keyless_helper : Helper :=
  mkHelper (AIEngine.new None) (PlaywrightHelper.mkConfig None no_cross)
    "CAROUSEL_SLIDER" "Unknown" None None None.

Lemma widget_not_found_fails_witness :
  exists r, result (validateWithAI empty_page keyless_helper None) = Ret r /\
            Runner.record_status r = Ret "FAIL".
Proof.
  destruct (widget_not_found_fails empty_page keyless_helper None getMockResult _
              eq_refl eq_refl
              (conj (or_introl eq_refl) (fun _ => eq_refl))
              eq_refl eq_refl)
    as [r [merged [first [rest [Hr [_ [_ [_ [_ [_ [_ Hs]]]]]]]]]]].
  exists r; split; assumption.
Defined.

(** ** Screenshot files *)

Lemma length_append (x y : string) :
  String.length (x ++ y) = String.length x + String.length y.
Proof. induction x as [| c x IH]; simpl; [reflexivity | now rewrite IH]. Qed.

Lemma append_cancel_l (p x y : string) : p ++ x = p ++ y -> x = y.
Proof. induction p as [| c p IH]; simpl; [trivial | intros [= H]; auto]. Qed.

Lemma append_cancel_r (s x y : string) : x ++ s = y ++ s -> x = y.
Proof.
  revert y; induction x as [| c x IH]; intros [| c' y] H; simpl in H.
  - reflexivity.
  - apply (f_equal String.length) in H; simpl in H; rewrite length_append in H; lia.
  - apply (f_equal String.length) in H; simpl in H; rewrite length_append in H; lia.
  - injection H as -> H; now rewrite (IH y H).
Qed.

Lemma decimal_injective (x y : Z) : decimal x = decimal y -> x = y.
Proof.
  unfold decimal; intros H.
  assert (nonnil : forall z, Z.to_int z <> Decimal.Pos Decimal.Nil /\
                             Z.to_int z <> Decimal.Neg Decimal.Nil).
  { intros [| p | p]; simpl; split; try discriminate;
      intros [= E]; now apply Unsigned.to_uint_nonnil in E. }
  apply (f_equal NilZero.int_of_string) in H.
  rewrite !NilZero.isi in H by apply nonnil.
  injection H as H; now apply DecimalZ.to_int_inj.
Qed.

Section Save.

Variable w : World.
Variable h : Helper.
Variable dir : string.

(** The file name of the buffer at index [i] of an array of length [n]. *)
Definition file_at (n i : nat) : string :=
  join dir
    ((if String.eqb (widgetType h) "Unknown" then expectedType h else widgetType h) ++
     "_" ++ decimal (now w) ++
     (if 1 <? n then "_part" ++ decimal (Z.of_nat (i + 1)) else "") ++ ".png").

(** The indices of the non-null buffers, counted from [i]. *)
Fixpoint present_at (i : nat) (buffers : list (option Capture)) : list nat :=
  match buffers with
  | [] => []
  | Some _ :: rest => i :: present_at (S i) rest
  | None :: rest => present_at (S i) rest
  end.

Lemma save_paths (n : nat) (buffers : list (option Capture)) :
  forall i paths,
    save w h dir n i buffers = Ret paths ->
    paths = map (file_at n) (present_at i buffers).
Proof.
  induction buffers as [| [b |] rest IH]; intros i paths; cbn [save present_at map].
  - now intros [= <-].
  - destruct (write w _); cbn [bind]; [| discriminate].
    destruct (save w h dir n (S i) rest) as [ps |] eqn:E; cbn [bind]; [| discriminate].
    intros [= <-]; now rewrite (IH (S i) ps E).
  - apply IH.
Qed.

Lemma present_at_bounds (buffers : list (option Capture)) :
  forall i j, In j (present_at i buffers) -> i <= j.
Proof.
  induction buffers as [| [b |] rest IH]; intros i j; cbn [present_at In].
  - contradiction.
  - intros [<- | H]; [lia | apply IH in H; lia].
  - intros H; apply IH in H; lia.
Qed.

Lemma present_at_NoDup (buffers : list (option Capture)) :
  forall i, NoDup (present_at i buffers).
Proof.
  induction buffers as [| [b |] rest IH]; intros i; cbn [present_at].
  - constructor.
  - constructor; [| apply IH].
    intros H; apply present_at_bounds in H; lia.
  - apply IH.
Qed.

Lemma present_at_length (buffers : list (option Capture)) :
  forall i, List.length (present_at i buffers) = List.length (present buffers).
Proof.
  induction buffers as [| [b |] rest IH]; intros i; cbn [present_at present List.length];
    [reflexivity | now rewrite IH | apply IH].
Qed.

Lemma file_at_injective (n i j : nat) :
  1 < n -> file_at n i = file_at n j -> i = j.
Proof.
  intros Hn; unfold file_at, join.
  apply Nat.ltb_lt in Hn; rewrite Hn; intros H.
  do 5 apply append_cancel_l in H.
  apply append_cancel_r, append_cancel_l, decimal_injective in H; lia.
Qed.

End Save.

(** X18.  The screenshots of one call are written to as many files as there
    are non-null buffers, the number of images the analysis receives, and
    to pairwise different files: no screenshot overwrites another. *)
Theorem save_distinct_files (w : World) (h : Helper) (dir : string)
  (buffers : list (option Capture)) (paths : list string) :
  save w h dir (List.length buffers) 0 buffers = Ret paths ->
  List.length paths = List.length (present buffers) /\ NoDup paths.
Proof.
  intros H; apply save_paths in H; subst paths.
  split; [now rewrite length_map, present_at_length |].
  destruct (Nat.lt_ge_cases 1 (List.length buffers)) as [Hn | Hn].
  - apply NoDup_map_NoDup_ForallPairs; [| apply present_at_NoDup].
    intros i j _ _; now apply file_at_injective.
  - destruct buffers as [| b [| b' rest]]; [constructor | | simpl in Hn; lia].
    destruct b; cbn; repeat constructor; intros [].
Qed.

Lemma save_distinct_files_witness :
  exists paths,
    save empty_page fresh_helper "/work/screenshots" 3 0
      [Some (mkCapture true 1); None; Some (mkCapture false 2)] = Ret paths /\
    List.length paths = 2 /\ NoDup paths.
Proof.
  eexists; split; [reflexivity |].
  apply (save_distinct_files empty_page fresh_helper "/work/screenshots"
           [Some (mkCapture true 1); None; Some (mkCapture false 2)]).
  reflexivity.
Defined.

(** ** The runners *)

Section Entries.

Import Runner.

Variable entry : Entry.
Variable validated : nat -> outcome PlaywrightHelper.Result.
Variable saved : nat -> outcome unit.

(** Attempt [k] produced a validation result whose status can be read. *)
Definition attempt_ok (k : nat) : Prop :=
  exists r s, validated k = Ret r /\ record_status r = Ret s.

Lemma attempt_body_cases (k : nat) :
  (exists r s, validated k = Ret r /\ record_status r = Ret s /\
               attempt_body entry validated saved k = ([success_record entry r s], saved k)) \/
  (~ attempt_ok k /\
   exists e, attempt_body entry validated saved k = ([], Throw e)).
Proof.
  unfold attempt_body, attempt_ok.
  destruct (validated k) as [r | e] eqn:V.
  - destruct (record_status r) as [s | e] eqn:S.
    + left; exists r, s; auto.
    + right; split; [| eauto].
      intros [r' [s' [[= <-] S']]]; congruence.
  - right; split; [| eauto].
    intros [r' [s' [V' _]]]; discriminate.
Qed.

End Entries.

Import Runner.

(** X19.  For every entry the daily and the on-demand runner record at least
    one run and at most
    four.  When the rotation file can be written, it is exactly one: the
    record of the first of the three attempts whose validation result has a
    readable status, or, when no attempt has one, an ERROR record that
    carries the message of the last failure. *)
Theorem process_entry_records (entry : Entry)
  (validated : nat -> outcome PlaywrightHelper.Result) (saved : nat -> outcome unit) :
  let records := process_entry entry validated saved in
  1 <= List.length records <= 4 /\
  ((forall k, 1 <= k <= 3 -> saved k = Ret tt) ->
   (forall k r s,
       1 <= k <= 3 ->
       (forall j, 1 <= j < k -> ~ attempt_ok validated j) ->
       validated k = Ret r -> record_status r = Ret s ->
       records = [success_record entry r s]) /\
   ((forall j, 1 <= j <= 3 -> ~ attempt_ok validated j) ->
    exists lastError,
      records = [error_record entry lastError] /\
      ((exists e, validated 3 = Throw e /\ lastError = JS.message e) \/
       (exists r e, validated 3 = Ret r /\ record_status r = Throw e /\
                    lastError = JS.message e)))).
Proof.
  intros records; unfold records, process_entry; cbn [attempts_loop].
  split.
  - destruct (attempt_body_cases entry validated saved 1) as [[? [? [_ [_ ->]]]] | [_ [? ->]]];
      cbv beta iota zeta; [destruct (saved 1); [simpl; lia |] |];
      (destruct (attempt_body_cases entry validated saved 2) as [[? [? [_ [_ ->]]]] | [_ [? ->]]];
       cbv beta iota zeta; [destruct (saved 2); [simpl; lia |] |]);
      (destruct (attempt_body_cases entry validated saved 3) as [[? [? [_ [_ ->]]]] | [_ [? ->]]];
       cbv beta iota zeta; [destruct (saved 3) |]);
      simpl; lia.
  - intros Hsaved; split.
    + intros k r s Hk Hbefore V S.
      assert (ok : attempt_body entry validated saved k = ([success_record entry r s], Ret tt))
        by (unfold attempt_body; rewrite V, S, Hsaved by exact Hk; reflexivity).
      assert (failed : forall j, 1 <= j < k ->
                 exists e, attempt_body entry validated saved j = ([], Throw e)).
      { intros j Hj.
        destruct (attempt_body_cases entry validated saved j) as [[r' [s' [V' [S' _]]]] | [_ H]];
          [| exact H].
        exfalso; apply (Hbefore j Hj); exists r', s'; auto. }
      assert (k = 1 \/ k = 2 \/ k = 3) as [-> | [-> | ->]] by lia.
      * rewrite ok; reflexivity.
      * destruct (failed 1) as [e1 ->]; [lia |]; rewrite ok; reflexivity.
      * destruct (failed 1) as [e1 ->]; [lia |].
        destruct (failed 2) as [e2 ->]; [lia |]; rewrite ok; reflexivity.
    + intros Hnone.
      assert (failed : forall j, 1 <= j <= 3 ->
                 exists e, attempt_body entry validated saved j = ([], Throw e)).
      { intros j Hj.
        destruct (attempt_body_cases entry validated saved j) as [[r' [s' [V' [S' _]]]] | [_ H]];
          [| exact H].
        exfalso; apply (Hnone j Hj); exists r', s'; auto. }
      destruct (failed 1) as [e1 ->]; [lia |].
      destruct (failed 2) as [e2 ->]; [lia |].
      destruct (failed 3) as [e3 E3]; [lia |]; rewrite E3; cbn.
      exists (JS.message e3); split; [reflexivity |].
      unfold attempt_body in E3.
      destruct (validated 3) as [r | e]; [| injection E3 as <-; left; eauto].
      destruct (record_status r) as [s | e] eqn:S; [discriminate E3 |].
      injection E3 as <-; right; eauto.
Qed.

Definition sample_entry : Entry :=
  mkEntry (Some "https://example.com/reviews") None (VNum (of_Z 6)) VUndefined.

Definition sample_result : PlaywrightHelper.Result :=
  mkResult "MARQUEE_STRIPE" "MARQUEE_STRIPE" None
    (PlaywrightHelper.mkConfig None no_cross) (Some passed_analysis) None None [].

(** The page fails to load on the first attempt and validates on the
    second. *)
Definition second_attempt (k : nat) : outcome PlaywrightHelper.Result :=
  if k =? 1 then Throw fetch_failed else Ret sample_result.

Lemma process_entry_records_witness :
  process_entry sample_entry second_attempt (fun _ => Ret tt) =
  [success_record sample_entry sample_result "PASS"].
Proof.
  apply (proj1 (proj2 (process_entry_records sample_entry second_attempt (fun _ => Ret tt))
                  (fun _ _ => eq_refl)) 2).
  - lia.
  - intros j Hj [r [s [V _]]]; assert (j = 1) as -> by lia; discriminate V.
  - reflexivity.
  - reflexivity.
Defined.

(** X20.  A page that is already closed when [validateWithAI] starts gives
    an 'Error' result without analysis and without any capture; the
    runners cannot read a status from it, so the attempt counts as failed.
    When that happens on all three attempts, the entry is recorded as ERROR
    with the message of that read, not with the page-closed reason. *)
Theorem closed_page_recorded (entry : Entry)
  (worlds : nat -> World) (helpers : nat -> Helper)
  (features : nat -> option (list Feature)) (saved : nat -> outcome unit) :
  (forall k, 1 <= k <= 3 -> closed_on_entry (worlds k) = true) ->
  (forall k, 1 <= k <= 3 ->
     exists r why,
       result (validateWithAI (worlds k) (helpers k) (features k)) = Ret r /\
       r_widgetType r = "Error" /\
       r_typeMatchResult r =
         Some (mkTypeMatch (expectedType (helpers k)) "Error" false why) /\
       why = "Page closed before validation" /\
       analysed (validateWithAI (worlds k) (helpers k) (features k)) = [] /\
       record_status r = Throw null_overall_status) /\
  process_entry entry
    (fun k => result (validateWithAI (worlds k) (helpers k) (features k))) saved =
  [error_record entry "Cannot read properties of null (reading 'overall_status')"].
Proof.
  intros Hclosed; split.
  - intros k Hk; unfold validateWithAI; rewrite (Hclosed k Hk).
    do 2 eexists; repeat split.
  - unfold process_entry, attempts_loop, attempt_body, validateWithAI.
    rewrite !Hclosed by lia; reflexivity.
Qed.

Lemma closed_page_recorded_witness :
  process_entry sample_entry
    (fun _ => result (validateWithAI
                        (mkWorld true (Ret 0) false (Ret 7) (fun _ h => Completed h [])
                           false (Ret 8) 0%Z "/work" true (Ret tt) (fun _ => Ret tt)
                           third_time_lucky)
                        keyless_helper None))
    (fun _ => Ret tt) =
  [error_record sample_entry "Cannot read properties of null (reading 'overall_status')"].
Proof.
  apply (proj2 (closed_page_recorded sample_entry
                  (fun _ => mkWorld true (Ret 0) false (Ret 7) (fun _ h => Completed h [])
                              false (Ret 8) 0%Z "/work" true (Ret tt) (fun _ => Ret tt)
                              third_time_lucky)
                  (fun _ => keyless_helper) (fun _ => None) (fun _ => Ret tt)
                  (fun _ _ => eq_refl))).
Defined.

Lemma In_firstn {A : Type} (n : nat) (l : list A) (x : A) :
  In x (firstn n l) -> In x l.
Proof.
  revert l; induction n as [| n IH]; intros [| y l]; simpl; try contradiction.
  intros [-> | H]; auto.
Qed.

Lemma In_slice_to {A : Type} (l : list A) (e : option Z) (x : A) :
  In x (slice_to l e) -> In x l.
Proof.
  unfold slice_to; destruct e as [e |]; [| contradiction].
  destruct (e <? 0)%Z; apply In_firstn.
Qed.

(** X21.  The batch of the daily runner.  Its entries come from the API
    data; while some entry has a url that is not in the rotation file, the
    batch holds only such entries and the file is kept; the file is reset,
    and the rotation starts over from the head of the data, exactly when
    every entry has been processed.  A non-negative batch size bounds the
    length of the batch, a positive one gives a non-empty batch whenever the
    API returned data, and a size that does not parse gives the empty
    batch. *)
Theorem select_batch_rotation (MAX_DAILY_BATCH : option Z)
  (allApiData : list Entry) (processed : list string) :
  let batch := fst (select_batch MAX_DAILY_BATCH allApiData processed) in
  let reset := snd (select_batch MAX_DAILY_BATCH allApiData processed) in
  (forall entry, In entry batch -> In entry allApiData) /\
  (reset = true <->
   forall entry, In entry allApiData -> includes_url processed (url_of entry) = true) /\
  (reset = false ->
   forall entry, In entry batch -> includes_url processed (url_of entry) = false) /\
  (reset = true -> batch = slice_to allApiData MAX_DAILY_BATCH) /\
  (forall m, MAX_DAILY_BATCH = Some m -> (0 <= m)%Z ->
             List.length batch <= Z.to_nat m) /\
  (forall m, MAX_DAILY_BATCH = Some m -> (0 < m)%Z -> allApiData <> [] -> batch <> []) /\
  (MAX_DAILY_BATCH = None -> batch = []).
Proof.
  intros batch reset; unfold batch, reset, select_batch.
  set (fresh := fun entry => negb (includes_url processed (url_of entry))).
  assert (Hf : forall entry, In entry (filter fresh allApiData) <->
                             In entry allApiData /\
                             includes_url processed (url_of entry) = false).
  { intros entry; rewrite filter_In; unfold fresh.
    destruct (includes_url processed (url_of entry)); simpl; intuition discriminate. }
  assert (positive : forall (l : list Entry) m,
             (0 < m)%Z -> l <> [] -> slice_to l (Some m) <> []).
  { intros [| x l] m Hm Hl; [contradiction |]; unfold slice_to.
    destruct (Z.ltb_spec m 0); [lia |].
    destruct (Z.to_nat m) eqn:E; [lia | discriminate]. }
  assert (bounded : forall (l : list Entry) m,
             (0 <= m)%Z -> List.length (slice_to l (Some m)) <= Z.to_nat m).
  { intros l m Hm; unfold slice_to.
    destruct (Z.ltb_spec m 0); [lia | apply firstn_le_length]. }
  destruct (filter fresh allApiData) as [| x pending] eqn:E; cbn [fst snd].
  - assert (all : forall entry, In entry allApiData ->
                                includes_url processed (url_of entry) = true).
    { intros entry Hin.
      destruct (includes_url processed (url_of entry)) eqn:I; [reflexivity |].
      exfalso; apply (proj2 (Hf entry)); auto. }
    split; [intros entry; apply In_slice_to |].
    split; [split; auto |].
    split; [discriminate |].
    split; [reflexivity |].
    split; [intros m -> Hm; now apply bounded |].
    split; [intros m -> Hm Hne; now apply positive |].
    intros ->; reflexivity.
  - split; [intros entry Hin; apply In_slice_to in Hin; now apply Hf |].
    split.
    { split; [discriminate |].
      intros all; pose proof (proj1 (Hf x) (or_introl eq_refl)) as [Hin Hx].
      rewrite (all x Hin) in Hx; discriminate. }
    split; [intros _ entry Hin; apply In_slice_to in Hin; now apply Hf |].
    split; [discriminate |].
    split; [intros m -> Hm; now apply bounded |].
    split; [intros m -> Hm _; apply positive; [exact Hm | discriminate] |].
    intros ->; reflexivity.
Qed.

Definition seen_entry : Entry :=
  mkEntry (Some "https://a.example") None (VNum (of_Z 4)) VUndefined.

Definition new_entry : Entry :=
  mkEntry (Some "") (Some "https://b.example") VUndefined (VNum (of_Z 9)).

Lemma select_batch_rotation_witness :
  (forall entry,
      In entry (fst (select_batch (Some 15%Z) [seen_entry; new_entry] ["https://a.example"])) ->
      includes_url ["https://a.example"] (url_of entry) = false) /\
  List.length (fst (select_batch (Some 1%Z) [seen_entry; new_entry] [])) <= 1.
Proof.
  split.
  - apply (proj1 (proj2 (proj2 (select_batch_rotation (Some 15%Z)
                                  [seen_entry; new_entry] ["https://a.example"])))).
    reflexivity.
  - apply (proj1 (proj2 (proj2 (proj2 (proj2
             (select_batch_rotation (Some 1%Z) [seen_entry; new_entry] [])))))
             1%Z eq_refl); lia.
Defined.

Definition known_status (r : RunRecord) : Prop :=
  run_status r = "PASS" \/ run_status r = "FAIL" \/ run_status r = "ERROR".

Lemma summary_buckets (results : list RunRecord) :
  List.length (with_status "PASS" results) +
  List.length (with_status "FAIL" results) +
  List.length (with_status "ERROR" results) +
  List.length (filter (fun r => negb (String.eqb (run_status r) "PASS" ||
                                      String.eqb (run_status r) "FAIL" ||
                                      String.eqb (run_status r) "ERROR")) results) =
  List.length results.
Proof.
  unfold with_status; induction results as [| r results IH]; [reflexivity |].
  cbn [filter List.length].
  destruct (String.eqb_spec (run_status r) "PASS") as [E | _].
  - rewrite E; cbn; lia.
  - destruct (String.eqb_spec (run_status r) "FAIL") as [E | _].
    + rewrite E; cbn; lia.
    + destruct (String.eqb (run_status r) "ERROR"); cbn; lia.
Qed.

(** X22.  In the summary of a report the three counters never exceed the
    total, and they add up to it exactly when every run is PASS, FAIL or
    ERROR: a run recorded as UNKNOWN, the status of a validation without
    overall status, is counted in the total and in no counter. *)
Theorem summary_counts (results : list RunRecord) :
  let s := summary results in
  total s = List.length results /\
  passed s + failed s + errors s <= total s /\
  (passed s + failed s + errors s = total s <-> Forall known_status results).
Proof.
  intros s; unfold s, summary; cbn [total passed failed errors].
  pose proof (summary_buckets results) as H.
  split; [reflexivity |]; split; [lia |].
  set (other := fun r => negb (String.eqb (run_status r) "PASS" ||
                               String.eqb (run_status r) "FAIL" ||
                               String.eqb (run_status r) "ERROR")) in H.
  assert (none : List.length (filter other results) = 0 <-> Forall known_status results).
  { clear H; induction results as [| r results IH]; cbn [filter].
    - split; [constructor | reflexivity].
    - unfold other at 1, known_status at 1.
      destruct (String.eqb_spec (run_status r) "PASS") as [E | N1]; cbn.
      + rewrite IH; split; [constructor; auto | now inversion 1].
      + destruct (String.eqb_spec (run_status r) "FAIL") as [E | N2]; cbn.
        * rewrite IH; split; [constructor; auto | now inversion 1].
        * destruct (String.eqb_spec (run_status r) "ERROR") as [E | N3]; cbn.
          -- rewrite IH; split; [constructor; auto | now inversion 1].
          -- split; [discriminate |].
             inversion 1 as [| ? ? [K | [K | K]] _]; contradiction. }
  rewrite <- none; lia.
Qed.
